(** * A reference-counting garbage collector: [PtrDetails] and [Pointer]

    Shallow embedding of [gc_details.h] / the [Pointer<T, size>] class
    template.  One instantiation [Pointer<T, size>] owns one static list
    [refContainer] of [PtrDetails<T>] records; every [Pointer] object
    constructed, copied, assigned or destroyed updates that list, and
    [collect] frees the blocks whose count is zero.

    Conventions of the embedding:
    - a [T*] is an integer address, [NULL] is [0];
    - [unsigned] values are integers in [0, 2^32), the wrap-around of
      [++], [--] and of the [int -> unsigned] conversion is written out;
    - a [std::list<PtrDetails<T>>::iterator] is a position in the list,
      [refContainer.end()] is the length of the list, and dereferencing
      the end position is undefined behaviour ([Undefined]);
    - [delete p] and [delete[] p] are recorded, in order, in a log;
    - the text written to [std::cout] is not modelled. *)

From Stdlib Require Import ZArith Lia.
From stdpp Require Import base tactics option numbers list.

(** ** Outcomes: a computation either completes or has undefined behaviour *)

Inductive outcome (A : Type) : Type :=
| Done (a : A)
| Undefined.
Arguments Done {A} a.
Arguments Undefined {A}.

#[global] Instance outcome_ret : MRet outcome := fun A a => Done a.
#[global] Instance outcome_bind : MBind outcome := fun A B k m =>
  match m with
  | Done a => k a
  | Undefined => Undefined
  end.

(** ** The allocator boundary: the two forms of deallocation *)

Inductive Dealloc : Type :=
| Delete (p : Z)        (* delete p    *)
| DeleteArray (p : Z).  (* delete[] p  *)

#[global] Instance Dealloc_eq_dec : EqDecision Dealloc.
Proof. solve_decision. Defined.

Definition dealloc_addr (d : Dealloc) : Z :=
  match d with
  | Delete p => p
  | DeleteArray p => p
  end.

Definition NULL : Z := 0.

(** [unsigned] arithmetic: values are taken modulo [2^32]. *)
Definition to_unsigned (z : Z) : Z := (z mod 2 ^ 32)%Z.

(** The conversion [unsigned -> int] (and [size_t -> int]): the value is
    taken modulo [2^32] into [-2^31, 2^31). *)
Definition to_int (z : Z) : Z := ((z + 2 ^ 31) mod 2 ^ 32 - 2 ^ 31)%Z.

(** ** [template <class T> class PtrDetails] *)

Module PtrDetails.

Record t : Type := mk {
  refCount : Z;   (* unsigned refCount  *)
  memPtr : Z;     (* T * memPtr         *)
  isArray : bool; (* bool isArray       *)
  arraySize : Z   (* unsigned arraySize *)
}.

#[global] Instance t_eq_dec : EqDecision t.
Proof. solve_decision. Defined.

(** [PtrDetails(T * ptr, unsigned size = 0)] *)
Definition new (ptr : Z) (size : Z) : t :=
  {| refCount := 1;
     memPtr := ptr;
     isArray := bool_decide (0 < size)%Z;
     arraySize := size |}.

Definition set_refCount (c : Z) (d : t) : t :=
  {| refCount := c; memPtr := memPtr d;
     isArray := isArray d; arraySize := arraySize d |}.

(** [void upRefCount() { refCount++; }] *)
Definition upRefCount (d : t) : t :=
  set_refCount (to_unsigned (refCount d + 1)) d.

(** [void downRefCount() { refCount--; }] *)
Definition downRefCount (d : t) : t :=
  set_refCount (to_unsigned (refCount d - 1)) d.

(** [bool zeroRefCount() { return refCount == 0; }] *)
Definition zeroRefCount (d : t) : bool := (refCount d =? 0)%Z.

(** The deallocation [collect] issues for a record. *)
Definition release (d : t) : Dealloc :=
  if isArray d then DeleteArray (memPtr d) else Delete (memPtr d).

(** [PtrDetails(const PtrDetails &ob)]: [memPtr], [isArray] and
    [arraySize] are copied; [refCount] is not written, so the new record
    keeps what its storage held ([storage]). *)
Definition copy (storage : Z) (ob : t) : t :=
  {| refCount := storage; memPtr := memPtr ob;
     isArray := isArray ob; arraySize := arraySize ob |}.

(** [bool operator==(const PtrDetails<T> &obj_1, const PtrDetails<T> &obj_2)] *)
Definition eqb (obj_1 obj_2 : t) : bool :=
  (memPtr obj_1 =? memPtr obj_2)%Z && (arraySize obj_1 =? arraySize obj_2)%Z.

End PtrDetails.

(** ** [template <class T, int size = 0> class Pointer] *)

Module Pointer.

(** The non-static data members of a [Pointer] object. *)
Record t : Type := mk {
  addr : Z;
  isArray : bool;
  arraySize : Z
}.

#[global] Instance t_eq_dec : EqDecision t.
Proof. solve_decision. Defined.

(** The static members of one instantiation, together with what the
    instantiation has done to the outside world: the number of times
    [atexit(shutdown)] was called and the log of deallocations. *)
Record statics : Type := mkStatics {
  refContainer : list PtrDetails.t;
  first : bool;
  atexit_calls : nat;
  freed : list Dealloc
}.

Definition set_refContainer (l : list PtrDetails.t) (s : statics) : statics :=
  {| refContainer := l; first := first s;
     atexit_calls := atexit_calls s; freed := freed s |}.

(** The state before any [Pointer] exists. *)
Definition initial : statics :=
  {| refContainer := []; first := true; atexit_calls := 0; freed := [] |}.

(** [findPtrInfo(T *ptr)]: the position of the first record whose
    [memPtr] is [ptr], or the end position. *)
Fixpoint findPtrInfo (ptr : Z) (l : list PtrDetails.t) : nat :=
  match l with
  | [] => 0
  | d :: l' =>
      if decide (PtrDetails.memPtr d = ptr) then 0
      else S (findPtrInfo ptr l')
  end.

(** [p->f()] for an iterator [p]: undefined at the end position. *)
Definition at_iterator (f : PtrDetails.t -> PtrDetails.t) (p : nat)
    (l : list PtrDetails.t) : outcome (list PtrDetails.t) :=
  match l !! p with
  | Some _ => Done (alter f p l)
  | None => Undefined
  end.

(** The [while] loop of [collect], from the iterator position on:
    [rest] is the part of the list not yet visited. *)
Fixpoint collect_loop (rest : list PtrDetails.t) (memfreed : bool)
    (log : list Dealloc) : list PtrDetails.t * bool * list Dealloc :=
  match rest with
  | [] => ([], memfreed, log)
  | d :: rest' =>
      if PtrDetails.zeroRefCount d then
        collect_loop rest' true (log ++ [PtrDetails.release d])
      else
        let '(kept, mf, lg) := collect_loop rest' memfreed log in
        (d :: kept, mf, lg)
  end.

(** [static bool collect()] *)
Definition collect (s : statics) : bool * statics :=
  let '(kept, memfreed, log) :=
    collect_loop (refContainer s) false (freed s) in
  (memfreed,
   {| refContainer := kept; first := first s;
      atexit_calls := atexit_calls s; freed := log |}).

(** [static int refContainerSize() { return refContainer.size(); }] *)
Definition refContainerSize (s : statics) : Z :=
  to_int (Z.of_nat (length (refContainer s))).

(** [static void shutdown()] *)
Definition shutdown (s : statics) : statics :=
  if decide (refContainerSize s = 0%Z) then s
  else
    snd (collect
           (set_refContainer
              (PtrDetails.set_refCount 0 <$> refContainer s) s)).

Section Instantiation.

(** The template argument [int size]. *)
Variable size : Z.

(** What the members [isArray] and [arraySize] are set to. *)
Definition fields_of (a : Z) : t :=
  {| addr := a;
     isArray := bool_decide (0 < size)%Z;
     arraySize := to_unsigned size |}.

(** [refContainer.emplace_back(t, size)] *)
Definition emplace_back (a : Z) (l : list PtrDetails.t) : list PtrDetails.t :=
  l ++ [PtrDetails.new a (to_unsigned size)].

(** [Pointer(T *t)] *)
Definition ctor (a : Z) (s : statics) : statics * t :=
  let hooks := if first s then S (atexit_calls s) else atexit_calls s in
  let l := refContainer s in
  let p := findPtrInfo a l in
  let l' :=
    if decide (p ≠ length l) then alter PtrDetails.upRefCount p l
    else emplace_back a l in
  ({| refContainer := l'; first := false;
      atexit_calls := hooks; freed := freed s |},
   fields_of a).

(** [Pointer(const Pointer &ob)] *)
Definition copy_ctor (ob : t) (s : statics) : outcome (statics * t) :=
  let l := refContainer s in
  l' ← at_iterator PtrDetails.upRefCount (findPtrInfo (addr ob) l) l;
  mret (set_refContainer l' s,
        {| addr := addr ob; isArray := isArray ob;
           arraySize := arraySize ob |}).

(** [~Pointer()] *)
Definition dtor (this : t) (s : statics) : outcome statics :=
  let l := refContainer s in
  l' ← at_iterator PtrDetails.downRefCount (findPtrInfo (addr this) l) l;
  mret (snd (collect (set_refContainer l' s))).

(** [T *operator=(T *t)] *)
Definition assign_raw (a : Z) (this : t) (s : statics) : statics * t * Z :=
  let l := refContainer s in
  let p := findPtrInfo (addr this) l in
  let l1 :=
    if decide (p ≠ length l) then alter PtrDetails.downRefCount p l
    else l in
  let p := findPtrInfo a l1 in
  let l2 :=
    if decide (p = length l1) then emplace_back a l1
    else alter PtrDetails.upRefCount p l1 in
  (set_refContainer l2 s, fields_of a, a).

(** [Pointer &operator=(Pointer &rv)]; [*this != rv] compares the two
    objects after conversion to [T*], that is, their addresses. *)
Definition assign_ptr (rv : t) (this : t) (s : statics) : outcome (statics * t) :=
  if decide (addr this ≠ addr rv) then
    let l := refContainer s in
    l1 ← at_iterator PtrDetails.downRefCount (findPtrInfo (addr this) l) l;
    l2 ← at_iterator PtrDetails.upRefCount (findPtrInfo (addr rv) l1) l1;
    mret (set_refContainer l2 s,
          {| addr := addr rv; isArray := isArray rv;
             arraySize := arraySize rv |})
  else mret (s, this).

(** [Pointer() { Pointer(NULL); }]: the body builds a temporary over
    [NULL] and destroys it at the end of the statement; no member of the
    object under construction is written, so the object keeps whatever
    its storage held ([storage]). *)
Definition default_ctor (storage : t) (s : statics) : outcome (statics * t) :=
  let '(s1, temporary) := ctor NULL s in
  s2 ← dtor temporary s1;
  mret (s2, storage).

End Instantiation.

Section Ranges.

(** [Iter<T>] is declared in [gc_iterator.h], which is not among the
    sources: the type and its three-pointer constructor are parameters,
    and so is [sizeof(T)], the step of pointer arithmetic on [T*]. *)
Variable Iter : Type.
Variable new_Iter : Z → Z → Z → Iter.
Variable sizeof_T : Z.

(** [Iter<T> begin()] *)
Definition begin (this : t) : Iter :=
  let _size := if isArray this then to_int (arraySize this) else 1%Z in
  new_Iter (addr this) (addr this) (addr this + _size * sizeof_T)%Z.

(** [Iter<T> end()] *)
Definition end_ (this : t) : Iter :=
  let _size := if isArray this then to_int (arraySize this) else 1%Z in
  new_Iter (addr this + _size * sizeof_T)%Z (addr this)
    (addr this + _size * sizeof_T)%Z.

End Ranges.

End Pointer.

(** ** Programs over [Pointer] objects

    A program owns a store of [Pointer] objects.  An object is named by
    the position of its slot; the slot of a destroyed object is emptied
    and never used again.  Using an object outside its lifetime is
    undefined behaviour. *)

Import Pointer.

Record program : Type := mkProgram {
  globals : statics;
  objects : list (option Pointer.t)
}.

Inductive operation : Type :=
| Construct (a : Z)                    (* Pointer<T,size> h(a);      *)
| CopyConstruct (ob : nat)             (* Pointer<T,size> h(ob);     *)
| Destroy (h : nat)                    (* h goes out of scope        *)
| AssignRaw (h : nat) (a : Z)          (* h = a;                     *)
| AssignPointer (h rv : nat)           (* h = rv;                    *)
| Collect                              (* Pointer<T,size>::collect() *)
| Shutdown                             (* Pointer<T,size>::shutdown()*)
| DefaultConstruct (storage : Pointer.t). (* Pointer<T,size> h;      *)

Definition object_at (h : nat) (objs : list (option Pointer.t)) : outcome Pointer.t :=
  match objs !! h with
  | Some (Some p) => Done p
  | _ => Undefined
  end.

Definition exec (size : Z) (op : operation) (st : program) : outcome program :=
  let s := globals st in
  let objs := objects st in
  match op with
  | Construct a =>
      let '(s', p) := ctor size a s in
      mret (mkProgram s' (objs ++ [Some p]))
  | CopyConstruct ob =>
      o ← object_at ob objs;
      '(s', p) ← copy_ctor o s;
      mret (mkProgram s' (objs ++ [Some p]))
  | Destroy h =>
      this ← object_at h objs;
      s' ← dtor this s;
      mret (mkProgram s' (<[h := None]> objs))
  | AssignRaw h a =>
      this ← object_at h objs;
      let '(s', this', _) := assign_raw size a this s in
      mret (mkProgram s' (<[h := Some this']> objs))
  | AssignPointer h rv =>
      this ← object_at h objs;
      r ← object_at rv objs;
      '(s', this') ← assign_ptr r this s;
      mret (mkProgram s' (<[h := Some this']> objs))
  | Collect => mret (mkProgram (snd (collect s)) objs)
  | Shutdown => mret (mkProgram (shutdown s) objs)
  | DefaultConstruct storage =>
      '(s', p) ← default_ctor size storage s;
      mret (mkProgram s' (objs ++ [Some p]))
  end.

Fixpoint run (size : Z) (ops : list operation) (st : program) : outcome program :=
  match ops with
  | [] => Done st
  | op :: ops' => st' ← exec size op st; run size ops' st'
  end.

(** The program state before anything ran. *)
Definition start : program := mkProgram initial [].

(** The operations through which a [Pointer] takes part in counting. *)
Definition counting (op : operation) : bool :=
  match op with
  | Shutdown | DefaultConstruct _ => false
  | _ => true
  end.

(** Whether a slot holds a live object pointing at [a], and the number
    of such slots. *)
Definition holds (a : Z) (o : option Pointer.t) : bool :=
  match o with
  | Some p => bool_decide (addr p = a)
  | None => false
  end.

Fixpoint holders (a : Z) (objs : list (option Pointer.t)) : nat :=
  match objs with
  | [] => 0
  | o :: objs' => (if holds a o then 1 else 0) + holders a objs'
  end.

(** The record for an address, as [findPtrInfo] sees it, and its count
    ([0] when there is no record). *)
Definition record_of (a : Z) (l : list PtrDetails.t) : option PtrDetails.t :=
  l !! findPtrInfo a l.

Definition count_of (a : Z) (l : list PtrDetails.t) : Z :=
  match record_of a l with
  | Some d => PtrDetails.refCount d
  | None => 0%Z
  end.

Definition zero_count (d : PtrDetails.t) : Prop := PtrDetails.refCount d = 0%Z.

#[global] Instance zero_count_dec d : Decision (zero_count d).
Proof. unfold zero_count. apply _. Defined.

(** At most one record per address. *)
Definition distinct_addresses (s : statics) : Prop :=
  NoDup (PtrDetails.memPtr <$> refContainer s).

(** Every count is the number of live objects pointing at the address. *)
Definition counts_match (st : program) : Prop :=
  ∀ a, count_of a (refContainer (globals st)) = Z.of_nat (holders a (objects st)).

(** The objects an operation names are live. *)
Definition live (h : nat) (objs : list (option Pointer.t)) : Prop :=
  ∃ p, objs !! h = Some (Some p).

Definition in_scope (op : operation) (objs : list (option Pointer.t)) : Prop :=
  match op with
  | CopyConstruct ob => live ob objs
  | Destroy h | AssignRaw h _ => live h objs
  | AssignPointer h rv => live h objs ∧ live rv objs
  | _ => True
  end.

(** The operations that run [Pointer(T *t)]. *)
Definition constructs (op : operation) : bool :=
  match op with
  | Construct _ | DefaultConstruct _ => true
  | _ => false
  end.

(** The operations that run [collect]. *)
Definition sweeps (op : operation) : bool :=
  match op with
  | Destroy _ | Collect => true
  | _ => false
  end.

(** What every record and every deallocation of the instantiation
    [Pointer<T, size>] look like. *)
Definition record_of_instantiation (size : Z) (d : PtrDetails.t) : Prop :=
  PtrDetails.isArray d = bool_decide (0 < to_unsigned size)%Z ∧
  PtrDetails.arraySize d = to_unsigned size ∧
  (0 ≤ PtrDetails.refCount d < 2 ^ 32)%Z.

Definition dealloc_of_instantiation (size : Z) (e : Dealloc) : Prop :=
  e = if bool_decide (0 < to_unsigned size)%Z
      then DeleteArray (dealloc_addr e) else Delete (dealloc_addr e).

Definition uniform (size : Z) (s : statics) : Prop :=
  Forall (record_of_instantiation size) (refContainer s) ∧
  Forall (dealloc_of_instantiation size) (freed s).

(** What the members of every object made by the constructors and
    assignments of [Pointer<T, size>] are. *)
Definition object_of_instantiation (size : Z) (o : option Pointer.t) : Prop :=
  match o with
  | Some p =>
      isArray p = bool_decide (0 < size)%Z ∧ arraySize p = to_unsigned size
  | None => True
  end.

(** * Properties *)

(** ** The registry as a list: [findPtrInfo], iterators, [collect_loop] *)

Lemma zeroRefCount_true d : PtrDetails.zeroRefCount d = true ↔ zero_count d.
Proof. unfold PtrDetails.zeroRefCount, zero_count. apply Z.eqb_eq. Qed.

Lemma zeroRefCount_false d : PtrDetails.zeroRefCount d = false ↔ ¬ zero_count d.
Proof. unfold PtrDetails.zeroRefCount, zero_count. apply Z.eqb_neq. Qed.

Lemma collect_loop_filter rest mf log :
  collect_loop rest mf log =
    (filter (λ d, ¬ zero_count d) rest,
     mf || existsb PtrDetails.zeroRefCount rest,
     log ++ (PtrDetails.release <$> filter zero_count rest)).
Proof.
  revert mf log. induction rest as [|d rest IH]; intros mf log; simpl.
  - by rewrite orb_false_r, app_nil_r.
  - destruct (PtrDetails.zeroRefCount d) eqn:Hz.
    + apply zeroRefCount_true in Hz.
      rewrite IH, filter_cons_False, (filter_cons_True zero_count) by tauto.
      rewrite fmap_cons, <- app_assoc. simpl. by rewrite orb_true_r.
    + apply zeroRefCount_false in Hz.
      rewrite IH, filter_cons_True, (filter_cons_False zero_count) by tauto.
      done.
Qed.

Lemma collect_unfold s :
  collect s =
    (existsb PtrDetails.zeroRefCount (refContainer s),
     {| refContainer := filter (λ d, ¬ zero_count d) (refContainer s);
        first := first s;
        atexit_calls := atexit_calls s;
        freed := freed s ++ (PtrDetails.release <$> filter zero_count (refContainer s)) |}).
Proof. unfold collect. by rewrite collect_loop_filter. Qed.

Lemma existsb_zeroRefCount l :
  existsb PtrDetails.zeroRefCount l = true ↔ ∃ d, d ∈ l ∧ zero_count d.
Proof.
  rewrite existsb_exists. split; intros (d & Hin & Hz); exists d.
  - by rewrite list_elem_of_In, <- zeroRefCount_true.
  - by rewrite <- list_elem_of_In, zeroRefCount_true.
Qed.

Lemma filter_shorter_iff l :
  length (filter (λ d, ¬ zero_count d) l) < length l ↔ ∃ d, d ∈ l ∧ zero_count d.
Proof.
  induction l as [|d l IH]; simpl.
  - split; [lia | intros (d & Hin & _); by apply elem_of_nil in Hin].
  - pose proof (length_filter (λ d, ¬ zero_count d) l) as Hle.
    destruct (decide (zero_count d)) as [Hz|Hz].
    + rewrite filter_cons_False by tauto. split; [|lia].
      intros _. exists d. split; [apply list_elem_of_here | done].
    + rewrite filter_cons_True by done. simpl. split.
      * intros Hlt. destruct (proj1 IH) as (x & Hin & Hx); [lia|].
        exists x. split; [by apply list_elem_of_further | done].
      * intros (x & Hin & Hx). apply elem_of_cons in Hin as [->|Hin]; [done|].
        assert (length (filter (λ d, ¬ zero_count d) l) < length l); [|lia].
        apply IH. by exists x.
Qed.

(** C2.  [collect] walks [refContainer] once.  Every record whose
    [refCount] is [0] is deallocated, with [delete[]] when its [isArray]
    is set and with [delete] otherwise, in list order, and is erased; the
    records with a nonzero [refCount] stay as they are, in their order;
    the result is [true] exactly when some record was erased.  Nothing
    else of the state changes. *)
Theorem collect_sweeps_zero_counts (s : statics) :
  let l := refContainer s in
  let memfreed := fst (collect s) in
  let s' := snd (collect s) in
  refContainer s' = filter (λ d, PtrDetails.refCount d ≠ 0%Z) l ∧
  freed s' =
    freed s ++
      ((λ d, if PtrDetails.isArray d
             then DeleteArray (PtrDetails.memPtr d)
             else Delete (PtrDetails.memPtr d)) <$>
         filter (λ d, PtrDetails.refCount d = 0%Z) l) ∧
  (memfreed = true ↔ ∃ d, d ∈ l ∧ PtrDetails.refCount d = 0%Z) ∧
  (memfreed = true ↔ length (refContainer s') < length l) ∧
  first s' = first s ∧ atexit_calls s' = atexit_calls s.
Proof.
  intros l memfreed s'. subst l memfreed s'. rewrite collect_unfold. simpl.
  split_and!; try done.
  - apply existsb_zeroRefCount.
  - rewrite existsb_zeroRefCount. symmetry. apply filter_shorter_iff.
Qed.

(** ** [shutdown] *)

Lemma filter_all_zero (l : list PtrDetails.t) :
  filter zero_count (PtrDetails.set_refCount 0 <$> l) = PtrDetails.set_refCount 0 <$> l ∧
  filter (λ d, ¬ zero_count d) (PtrDetails.set_refCount 0 <$> l) = [].
Proof.
  induction l as [|d l [IH1 IH2]]; [done|]. rewrite fmap_cons.
  rewrite filter_cons_True, filter_cons_False by (unfold zero_count; simpl; tauto).
  by rewrite IH1, IH2.
Qed.

Lemma to_int_small z : (- 2 ^ 31 ≤ z < 2 ^ 31)%Z → to_int z = z.
Proof. intros Hz. unfold to_int. rewrite Z.mod_small by lia. lia. Qed.

Lemma refContainerSize_nil s : refContainer s = [] → refContainerSize s = 0%Z.
Proof. unfold refContainerSize. by intros ->. Qed.

(** [refContainerSize()] is [0] exactly when the number of records is a
    multiple of [2^32]. *)
Lemma refContainerSize_zero s :
  refContainerSize s = 0%Z ↔
  (Z.of_nat (length (refContainer s)) mod 2 ^ 32 = 0)%Z.
Proof.
  unfold refContainerSize, to_int.
  generalize (Z.of_nat (length (refContainer s))). intros n.
  change (2 ^ 32)%Z with 4294967296%Z. change (2 ^ 31)%Z with 2147483648%Z.
  Z.div_mod_to_equations. lia.
Qed.

Lemma shutdown_skips s : refContainerSize s = 0%Z → shutdown s = s.
Proof. intros Hz. unfold shutdown. by rewrite decide_True. Qed.

Lemma shutdown_sweeps (s : statics) :
  refContainerSize s ≠ 0%Z →
  shutdown s =
    snd (collect (set_refContainer (PtrDetails.set_refCount 0 <$> refContainer s) s)).
Proof. intros Hz. unfold shutdown. by rewrite decide_False. Qed.

Lemma shutdown_unfold (s : statics) :
  refContainer s = [] ∨ refContainerSize s ≠ 0%Z →
  shutdown s =
    {| refContainer := []; first := first s; atexit_calls := atexit_calls s;
       freed := freed s ++ (PtrDetails.release <$> refContainer s) |}.
Proof.
  intros [Hnil|Hnz].
  - rewrite shutdown_skips by by apply refContainerSize_nil.
    destruct s as [l f n lg]. simpl in *. subst l. simpl. by rewrite app_nil_r.
  - rewrite shutdown_sweeps, collect_unfold by done. simpl.
    destruct (filter_all_zero (refContainer s)) as [-> ->].
    do 2 f_equal. rewrite <- list_fmap_compose. by apply list_fmap_ext.
Qed.

(** Either way: [shutdown] returns at its test and changes nothing, or it
    empties the registry after deallocating every record. *)
Lemma shutdown_cases (s : statics) :
  shutdown s = s ∨
  shutdown s =
    {| refContainer := []; first := first s; atexit_calls := atexit_calls s;
       freed := freed s ++ (PtrDetails.release <$> refContainer s) |}.
Proof.
  destruct (decide (refContainerSize s = 0%Z)) as [Hz|Hnz].
  - left. by apply shutdown_skips.
  - right. apply shutdown_unfold. by right.
Qed.


(** ** [findPtrInfo] and the record it designates *)

Section Registry.

Implicit Types (l : list PtrDetails.t) (a b : Z) (d : PtrDetails.t).

Lemma findPtrInfo_le a l : findPtrInfo a l ≤ length l.
Proof. induction l as [|d l IH]; simpl; [lia|]. case_decide; lia. Qed.

Lemma findPtrInfo_lookup a l d :
  l !! findPtrInfo a l = Some d → PtrDetails.memPtr d = a.
Proof.
  induction l as [|x l IH]; simpl; [done|].
  case_decide; simpl; [congruence | done].
Qed.

Lemma findPtrInfo_end a l :
  findPtrInfo a l = length l ↔ a ∉ PtrDetails.memPtr <$> l.
Proof.
  induction l as [|x l IH]; simpl.
  - split; [intros _; apply not_elem_of_nil | done].
  - rewrite not_elem_of_cons. case_decide; split; try lia; try tauto.
    + intros [=Heq]. split; [congruence | by apply IH].
    + intros [_ Hnin]. f_equal. by apply IH.
Qed.

Lemma record_of_None a l :
  record_of a l = None ↔ a ∉ PtrDetails.memPtr <$> l.
Proof.
  unfold record_of. rewrite lookup_ge_None, <- findPtrInfo_end.
  pose proof (findPtrInfo_le a l). lia.
Qed.

Lemma record_of_Some a l d :
  record_of a l = Some d → PtrDetails.memPtr d = a ∧ d ∈ l.
Proof.
  intros H. split; [by eapply findPtrInfo_lookup|].
  by eapply list_elem_of_lookup_2.
Qed.

Lemma record_of_cons a x l :
  record_of a (x :: l) =
    if decide (PtrDetails.memPtr x = a) then Some x else record_of a l.
Proof. unfold record_of. simpl. by case_decide. Qed.

Lemma record_of_is_Some a l :
  is_Some (record_of a l) ↔ findPtrInfo a l ≠ length l.
Proof.
  unfold record_of. rewrite lookup_lt_is_Some.
  pose proof (findPtrInfo_le a l). lia.
Qed.

(** With one record per address, [findPtrInfo] designates every record
    of the list. *)
Lemma record_of_elem d l :
  NoDup (PtrDetails.memPtr <$> l) → d ∈ l →
  record_of (PtrDetails.memPtr d) l = Some d.
Proof.
  induction l as [|x l IH]; intros Hnd Hin; [by apply elem_of_nil in Hin|].
  rewrite fmap_cons in Hnd. apply NoDup_cons in Hnd as [Hx Hnd].
  rewrite record_of_cons. apply elem_of_cons in Hin as [->|Hin].
  - by rewrite decide_True.
  - rewrite decide_False; [by apply IH|].
    intros Heq. apply Hx. rewrite Heq. by apply list_elem_of_fmap_2.
Qed.

Variable f : PtrDetails.t → PtrDetails.t.
Hypothesis f_memPtr : ∀ d, PtrDetails.memPtr (f d) = PtrDetails.memPtr d.

Lemma fmap_memPtr_alter p l :
  PtrDetails.memPtr <$> alter f p l = PtrDetails.memPtr <$> l.
Proof.
  revert p. induction l as [|x l IH]; intros [|p]; csimpl; try done.
  - by rewrite f_memPtr.
  - by rewrite IH.
Qed.

Lemma findPtrInfo_alter a p l :
  findPtrInfo a (alter f p l) = findPtrInfo a l.
Proof.
  revert p. induction l as [|x l IH]; intros [|p]; simpl; try done.
  - by rewrite f_memPtr.
  - case_decide; [done|]. f_equal. apply IH.
Qed.

Lemma record_of_alter a b l :
  record_of b (alter f (findPtrInfo a l) l) =
    if decide (b = a) then f <$> record_of a l else record_of b l.
Proof.
  unfold record_of. rewrite findPtrInfo_alter. case_decide as Hab.
  - subst b. apply list_lookup_alter_eq.
  - destruct (decide (findPtrInfo a l = findPtrInfo b l)) as [Heq|Hne].
    + rewrite Heq, list_lookup_alter_eq.
      destruct (l !! findPtrInfo b l) as [d|] eqn:Hd; [|done].
      pose proof (findPtrInfo_lookup _ _ _ Hd).
      rewrite <- Heq in Hd. pose proof (findPtrInfo_lookup _ _ _ Hd). congruence.
    + by rewrite list_lookup_alter_ne.
Qed.

End Registry.

Lemma upRefCount_memPtr d :
  PtrDetails.memPtr (PtrDetails.upRefCount d) = PtrDetails.memPtr d.
Proof. done. Qed.

Lemma downRefCount_memPtr d :
  PtrDetails.memPtr (PtrDetails.downRefCount d) = PtrDetails.memPtr d.
Proof. done. Qed.

Lemma record_of_app a (l k : list PtrDetails.t) :
  record_of a (l ++ k) =
    match record_of a l with
    | Some d => Some d
    | None => record_of a k
    end.
Proof.
  induction l as [|x l IH]; simpl; [done|].
  rewrite !record_of_cons. by case_decide.
Qed.

Lemma record_of_emplace_back size a b (l : list PtrDetails.t) :
  record_of a l = None →
  record_of b (emplace_back size a l) =
    if decide (b = a) then Some (PtrDetails.new a (to_unsigned size))
    else record_of b l.
Proof.
  intros Hnone. unfold emplace_back. rewrite record_of_app, record_of_cons.
  simpl. destruct (decide (b = a)) as [->|Hab].
  - rewrite Hnone. by rewrite decide_True.
  - destruct (record_of b l); [done|]. by rewrite decide_False.
Qed.

Lemma record_of_filter (P : PtrDetails.t → Prop) `{!∀ d, Decision (P d)}
    a (l : list PtrDetails.t) :
  NoDup (PtrDetails.memPtr <$> l) →
  record_of a (filter P l) =
    match record_of a l with
    | Some d => if decide (P d) then Some d else None
    | None => None
    end.
Proof.
  induction l as [|x l IH]; intros Hnd; [done|].
  rewrite fmap_cons in Hnd. apply NoDup_cons in Hnd as [Hx Hnd].
  rewrite record_of_cons. destruct (decide (P x)) as [HP|HP].
  - rewrite filter_cons_True, record_of_cons by done.
    case_decide; [by rewrite decide_True | by apply IH].
  - rewrite filter_cons_False, IH by done.
    case_decide as Hxa; [|done]. subst a.
    apply record_of_None in Hx. rewrite Hx. by rewrite decide_False.
Qed.

Lemma NoDup_memPtr_filter (P : PtrDetails.t → Prop) `{!∀ d, Decision (P d)}
    (l : list PtrDetails.t) :
  NoDup (PtrDetails.memPtr <$> l) → NoDup (PtrDetails.memPtr <$> filter P l).
Proof.
  intros Hnd. eapply sublist_NoDup; [exact Hnd|].
  apply fmap_sublist, sublist_filter.
Qed.

Lemma NoDup_memPtr_emplace_back size a (l : list PtrDetails.t) :
  record_of a l = None →
  NoDup (PtrDetails.memPtr <$> l) →
  NoDup (PtrDetails.memPtr <$> emplace_back size a l).
Proof.
  intros Hnone Hnd. unfold emplace_back. rewrite fmap_snoc. simpl.
  apply NoDup_app. split_and!; [done| |apply NoDup_singleton].
  intros x Hx Hin. apply list_elem_of_singleton in Hin. subst x.
  by apply record_of_None in Hnone.
Qed.

(** The outcome of [p->f()] at the position [findPtrInfo] returned. *)
Lemma at_iterator_found f a (l : list PtrDetails.t) d :
  record_of a l = Some d →
  at_iterator f (findPtrInfo a l) l = Done (alter f (findPtrInfo a l) l).
Proof. unfold at_iterator, record_of. by intros ->. Qed.

Lemma at_iterator_end f a (l : list PtrDetails.t) :
  record_of a l = None →
  at_iterator f (findPtrInfo a l) l = Undefined.
Proof. unfold at_iterator, record_of. by intros ->. Qed.

Lemma findPtrInfo_app_r a (l k : list PtrDetails.t) :
  a ∉ PtrDetails.memPtr <$> l →
  findPtrInfo a (l ++ k) = length l + findPtrInfo a k.
Proof.
  induction l as [|x l IH]; intros Hnin; simpl; [done|].
  rewrite fmap_cons in Hnin. apply not_elem_of_cons in Hnin as [Hx Hnin].
  rewrite decide_False by done. by rewrite IH.
Qed.

Lemma at_iterator_snoc f a (l : list PtrDetails.t) x :
  a ∉ PtrDetails.memPtr <$> l → PtrDetails.memPtr x = a →
  findPtrInfo a (l ++ [x]) = length l ∧
  alter f (findPtrInfo a (l ++ [x])) (l ++ [x]) = l ++ [f x] ∧
  at_iterator f (findPtrInfo a (l ++ [x])) (l ++ [x]) = Done (l ++ [f x]).
Proof.
  intros Hnin Hx.
  assert (findPtrInfo a (l ++ [x]) = length l) as Hp.
  { rewrite findPtrInfo_app_r by done. simpl. rewrite decide_True by done. lia. }
  assert (alter f (length l) (l ++ [x]) = l ++ [f x]) as Halt.
  { replace (length l) with (length l + 0) at 1 by lia.
    by rewrite alter_app_r. }
  unfold at_iterator. rewrite Hp, Halt.
  split_and!; try done. by rewrite list_lookup_middle.
Qed.

Lemma not_elem_memPtr_filter (P : PtrDetails.t → Prop) `{!∀ d, Decision (P d)}
    a (l : list PtrDetails.t) :
  a ∉ PtrDetails.memPtr <$> l → a ∉ PtrDetails.memPtr <$> filter P l.
Proof.
  intros Hnin Hin. apply Hnin.
  apply list_elem_of_fmap in Hin as (d & -> & Hd).
  apply list_elem_of_filter in Hd as [_ Hd]. by apply list_elem_of_fmap_2.
Qed.

Lemma no_release_of_absent a (l : list PtrDetails.t) :
  a ∉ PtrDetails.memPtr <$> l →
  filter (λ e, dealloc_addr e = a) (PtrDetails.release <$> l) = [].
Proof.
  induction l as [|x l IH]; intros Hnin; [done|].
  rewrite fmap_cons in Hnin. apply not_elem_of_cons in Hnin as [Hx Hnin].
  rewrite fmap_cons, filter_cons_False; [by apply IH|].
  unfold PtrDetails.release. destruct (PtrDetails.isArray x); simpl; congruence.
Qed.

(** ** Construction *)

Lemma ctor_refContainer size a s :
  refContainer (ctor size a s).1 =
    match record_of a (refContainer s) with
    | Some _ => alter PtrDetails.upRefCount (findPtrInfo a (refContainer s)) (refContainer s)
    | None => emplace_back size a (refContainer s)
    end.
Proof.
  unfold ctor. simpl. case_decide as Hp.
  - apply record_of_is_Some in Hp as [d Hd]. by rewrite Hd.
  - destruct (record_of a (refContainer s)) as [d|] eqn:Hd; [|done].
    assert (is_Some (record_of a (refContainer s))) as Hs by by exists d.
    by apply record_of_is_Some in Hs.
Qed.

Lemma ctor_record_of size a b s :
  record_of b (refContainer (ctor size a s).1) =
    if decide (b = a) then
      Some (match record_of a (refContainer s) with
            | Some d => PtrDetails.upRefCount d
            | None => PtrDetails.new a (to_unsigned size)
            end)
    else record_of b (refContainer s).
Proof.
  rewrite ctor_refContainer.
  destruct (record_of a (refContainer s)) as [d|] eqn:Hd.
  - rewrite record_of_alter by done. rewrite Hd. done.
  - by apply record_of_emplace_back.
Qed.

(** ** Destruction *)

Lemma dtor_unfold this s :
  dtor this s =
    match record_of (addr this) (refContainer s) with
    | Some _ =>
        Done (snd (collect (set_refContainer
          (alter PtrDetails.downRefCount
             (findPtrInfo (addr this) (refContainer s)) (refContainer s)) s)))
    | None => Undefined
    end.
Proof.
  unfold dtor. destruct (record_of _ _) as [d|] eqn:Hd.
  - by erewrite at_iterator_found.
  - by rewrite at_iterator_end.
Qed.

Lemma filter_memPtr_absent a (l : list PtrDetails.t) :
  a ∉ PtrDetails.memPtr <$> l →
  filter (λ d, PtrDetails.memPtr d = a) l = [].
Proof.
  induction l as [|x l IH]; intros Hnin; [done|].
  rewrite fmap_cons in Hnin. apply not_elem_of_cons in Hnin as [Hx Hnin].
  rewrite filter_cons_False by congruence. by apply IH.
Qed.

Lemma dtor_last this s (l : list PtrDetails.t) x :
  refContainer s = l ++ [x] →
  addr this ∉ PtrDetails.memPtr <$> l →
  PtrDetails.memPtr x = addr this →
  dtor this s =
    Done {| refContainer :=
              filter (λ d, ¬ zero_count d) l ++
                filter (λ d, ¬ zero_count d) [PtrDetails.downRefCount x];
            first := first s;
            atexit_calls := atexit_calls s;
            freed :=
              freed s ++
                (PtrDetails.release <$> filter zero_count l) ++
                (PtrDetails.release <$>
                   filter zero_count [PtrDetails.downRefCount x]) |}.
Proof.
  intros Hl Hnin Hx. unfold dtor. rewrite Hl.
  destruct (at_iterator_snoc PtrDetails.downRefCount _ l x Hnin Hx)
    as (_ & _ & ->).
  simpl. rewrite collect_unfold. simpl.
  by rewrite !filter_app, fmap_app.
Qed.

(** C7.  [Pointer(T *t)] registers [t]: with no record for [t] it
    appends a record with [refCount] 1, with a record for [t] it
    increments that record's [refCount]; the records of the other
    addresses are untouched.  Two objects constructed one after the other
    over an address [a] that had no record leave exactly one record for
    [a], with [refCount] 2, and destroying both deallocates [a] exactly
    once and leaves no record for [a]. *)
Theorem ctor_registers_address size a s :
  let l := refContainer s in
  let fresh :=
    {| PtrDetails.refCount := 1; PtrDetails.memPtr := a;
       PtrDetails.isArray := bool_decide (0 < to_unsigned size)%Z;
       PtrDetails.arraySize := to_unsigned size |} in
  (record_of a l = None → refContainer (ctor size a s).1 = l ++ [fresh]) ∧
  (∀ d, record_of a l = Some d →
     refContainer (ctor size a s).1 =
       alter PtrDetails.upRefCount (findPtrInfo a l) l ∧
     record_of a (refContainer (ctor size a s).1) =
       Some (PtrDetails.set_refCount ((PtrDetails.refCount d + 1) mod 2 ^ 32)%Z d)) ∧
  (∀ b, b ≠ a → record_of b (refContainer (ctor size a s).1) = record_of b l) ∧
  (record_of a l = None →
     let '(s1, h1) := ctor size a s in
     let '(s2, h2) := ctor size a s1 in
     filter (λ d, PtrDetails.memPtr d = a) (refContainer s2) =
       [PtrDetails.set_refCount 2 fresh] ∧
     ∃ s4 log,
       dtor h1 s2 ≫= dtor h2 = Done s4 ∧
       freed s4 = freed s ++ log ∧
       filter (λ e, dealloc_addr e = a) log =
         [if bool_decide (0 < to_unsigned size)%Z then DeleteArray a else Delete a] ∧
       record_of a (refContainer s4) = None).
Proof.
  intros l fresh. unfold l. split_and!.
  - intros Hnone. by rewrite ctor_refContainer, Hnone.
  - intros d Hd. split.
    + by rewrite ctor_refContainer, Hd.
    + by rewrite ctor_record_of, decide_True, Hd.
  - intros b Hb. by rewrite ctor_record_of, decide_False.
  - intros Hnone.
    destruct (ctor size a s) as [s1 h1] eqn:E1.
    destruct (ctor size a s1) as [s2 h2] eqn:E2.
    assert (addr h1 = a ∧ addr h2 = a) as [Hh1 Hh2].
    { unfold ctor in E1, E2. by simplify_eq. }
    assert (refContainer s1 = l ++ [fresh]) as Hl1.
    { change s1 with (s1, h1).1. by rewrite <- E1, ctor_refContainer, Hnone. }
    pose proof (proj1 (record_of_None _ _) Hnone) as Hnin.
    destruct (at_iterator_snoc PtrDetails.upRefCount a l fresh Hnin eq_refl)
      as (Hp1 & Ha1 & _).
    assert (refContainer s2 = l ++ [PtrDetails.set_refCount 2 fresh]) as Hl2.
    { change s2 with (s2, h2).1. rewrite <- E2, ctor_refContainer, Hl1.
      unfold record_of. rewrite Hp1, list_lookup_middle by done.
      by rewrite <- Hp1, Ha1. }
    assert (freed s2 = freed s) as Hf2.
    { unfold ctor in E1, E2. by simplify_eq. }
    split.
    { rewrite Hl2, filter_app, filter_memPtr_absent by done.
      by rewrite filter_cons_True. }
    rewrite (dtor_last h1 s2 l (PtrDetails.set_refCount 2 fresh))
      by (done || by rewrite Hh1).
    simpl. rewrite (filter_cons_True _ (PtrDetails.downRefCount _)) by done.
    rewrite filter_nil.
    erewrite (dtor_last h2 _ (filter _ l)); [| done | | done]; last first.
    { rewrite Hh2. by apply not_elem_memPtr_filter. }
    simpl. eexists _, _. split; [done|]. simpl. rewrite Hf2.
    split; [by rewrite <- !app_assoc|].
    rewrite !app_nil_r, !filter_app.
    rewrite !no_release_of_absent
      by (repeat apply not_elem_memPtr_filter; done).
    simpl. split.
    + rewrite filter_cons_True; [done|].
      unfold PtrDetails.release. simpl. by case_bool_decide.
    + apply record_of_None. by repeat apply not_elem_memPtr_filter.
Qed.

(** ** Assignment of a raw pointer *)

Lemma decide_found_ne {A} a (l : list PtrDetails.t) (x y : A) :
  (if decide (findPtrInfo a l ≠ length l) then x else y) =
    match record_of a l with Some _ => x | None => y end.
Proof.
  case_decide as Hp.
  - apply record_of_is_Some in Hp as [d ->]. done.
  - destruct (record_of a l) as [d|] eqn:Hd; [|done].
    assert (is_Some (record_of a l)) as Hs by by exists d.
    by apply record_of_is_Some in Hs.
Qed.

Lemma decide_found_eq {A} a (l : list PtrDetails.t) (x y : A) :
  (if decide (findPtrInfo a l = length l) then y else x) =
    match record_of a l with Some _ => x | None => y end.
Proof.
  rewrite <- decide_found_ne. do 2 case_decide; done.
Qed.

(** The registry after the release step and after the whole of
    [operator=(T *t)]. *)
Lemma assign_raw_refContainer size a this s :
  let l := refContainer s in
  let l1 :=
    match record_of (addr this) l with
    | Some _ => alter PtrDetails.downRefCount (findPtrInfo (addr this) l) l
    | None => l
    end in
  refContainer (assign_raw size a this s).1.1 =
    match record_of a l1 with
    | Some _ => alter PtrDetails.upRefCount (findPtrInfo a l1) l1
    | None => emplace_back size a l1
    end.
Proof.
  intros l l1. unfold assign_raw. simpl.
  rewrite decide_found_eq. rewrite !decide_found_ne. done.
Qed.

Lemma assign_raw_record_of size a this s b :
  let l := refContainer s in
  let released c :=
    if decide (c = addr this) then PtrDetails.downRefCount <$> record_of c l
    else record_of c l in
  record_of b (refContainer (assign_raw size a this s).1.1) =
    if decide (b = a) then
      Some (match released a with
            | Some d => PtrDetails.upRefCount d
            | None => PtrDetails.new a (to_unsigned size)
            end)
    else released b.
Proof.
  intros l released. rewrite assign_raw_refContainer. fold l.
  set (l1 := match record_of (addr this) l with
             | Some _ => alter PtrDetails.downRefCount (findPtrInfo (addr this) l) l
             | None => l
             end).
  assert (∀ c, record_of c l1 = released c) as Hl1.
  { intros c. unfold l1, released.
    destruct (record_of (addr this) l) as [d|] eqn:Hd.
    - rewrite record_of_alter by done. rewrite Hd. case_decide; [subst; by rewrite Hd | done].
    - case_decide as Hc; [|done]. subst c. by rewrite Hd. }
  destruct (record_of a l1) as [d|] eqn:Hd.
  - rewrite record_of_alter by done. rewrite Hd, <- !Hl1, Hd. done.
  - rewrite record_of_emplace_back by done. rewrite <- !Hl1, Hd. done.
Qed.

Lemma collect_leaves_no_zero s x :
  x ∈ refContainer (collect s).2 → PtrDetails.refCount x ≠ 0%Z.
Proof.
  rewrite collect_unfold. simpl. intros Hx.
  by apply list_elem_of_filter in Hx as [Hx _].
Qed.

Lemma dtor_leaves_no_zero this s s' x :
  dtor this s = Done s' → x ∈ refContainer s' → PtrDetails.refCount x ≠ 0%Z.
Proof.
  rewrite dtor_unfold. destruct (record_of _ _); [|done].
  intros [= <-]. apply collect_leaves_no_zero.
Qed.

Lemma assign_raw_rest size a this s :
  freed (assign_raw size a this s).1.1 = freed s ∧
  first (assign_raw size a this s).1.1 = first s ∧
  atexit_calls (assign_raw size a this s).1.1 = atexit_calls s ∧
  (assign_raw size a this s).1.2 = fields_of size a ∧
  (assign_raw size a this s).2 = a.
Proof. done. Qed.

Lemma assign_raw_keeps_records size a this s :
  (PtrDetails.memPtr <$> refContainer s) `prefix_of`
    (PtrDetails.memPtr <$> refContainer (assign_raw size a this s).1.1).
Proof.
  rewrite assign_raw_refContainer.
  set (l1 := match record_of (addr this) (refContainer s) with
             | Some _ => _ | None => _ end).
  assert (PtrDetails.memPtr <$> l1 = PtrDetails.memPtr <$> refContainer s) as <-.
  { unfold l1. destruct (record_of _ _); [|done]. by apply fmap_memPtr_alter. }
  destruct (record_of a l1).
  - by rewrite fmap_memPtr_alter.
  - unfold emplace_back. rewrite fmap_app. by apply prefix_app_r.
Qed.

(** C5.  [h = a] for a [Pointer] [h] at address [addr h]: the record of
    [addr h], when there is one, has its [refCount] decremented (minus
    one, as an [unsigned]); then [a] is registered: a record with
    [refCount] 1 is appended when [a] has none, and the [refCount] of the
    record of [a] is incremented (plus one, as an [unsigned]) otherwise;
    [h] gets the address [a], the array flag and the array length of the
    instantiation; the result is [a].  No record is erased and nothing is
    deallocated: a record whose [refCount] dropped to [0] is still in
    [refContainer], and is gone after the next [collect], destruction of
    a [Pointer], or [shutdown] that gets past its size test. *)
Theorem assign_raw_releases_then_registers size a this s :
  let l := refContainer s in
  let with_count c d :=
    {| PtrDetails.refCount := c; PtrDetails.memPtr := PtrDetails.memPtr d;
       PtrDetails.isArray := PtrDetails.isArray d;
       PtrDetails.arraySize := PtrDetails.arraySize d |} in
  let released c :=
    if decide (c = addr this) then
      match record_of c l with
      | Some d => Some (with_count ((PtrDetails.refCount d - 1) mod 2 ^ 32)%Z d)
      | None => None
      end
    else record_of c l in
  let s' := (assign_raw size a this s).1.1 in
  let this' := (assign_raw size a this s).1.2 in
  let result := (assign_raw size a this s).2 in
  (∀ b, record_of b (refContainer s') =
          if decide (b = a) then
            Some (match released a with
                  | Some d => with_count ((PtrDetails.refCount d + 1) mod 2 ^ 32)%Z d
                  | None =>
                      {| PtrDetails.refCount := 1; PtrDetails.memPtr := a;
                         PtrDetails.isArray := bool_decide (0 < size mod 2 ^ 32)%Z;
                         PtrDetails.arraySize := (size mod 2 ^ 32)%Z |}
                  end)
          else released b) ∧
  this' = {| addr := a; isArray := bool_decide (0 < size)%Z;
             arraySize := (size mod 2 ^ 32)%Z |} ∧
  result = a ∧
  freed s' = freed s ∧
  (PtrDetails.memPtr <$> l) `prefix_of` (PtrDetails.memPtr <$> refContainer s') ∧
  (∀ d, record_of (addr this) l = Some d → PtrDetails.refCount d = 1%Z →
        addr this ≠ a →
        record_of (addr this) (refContainer s') = Some (with_count 0%Z d)) ∧
  (∀ x, x ∈ refContainer (collect s').2 → PtrDetails.refCount x ≠ 0%Z) ∧
  (∀ other s'', dtor other s' = Done s'' →
        ∀ x, x ∈ refContainer s'' → PtrDetails.refCount x ≠ 0%Z) ∧
  (refContainerSize s' ≠ 0%Z → refContainer (shutdown s') = []).
Proof.
  intros l with_count released s' this' result.
  assert (∀ c, released c =
               if decide (c = addr this)
               then PtrDetails.downRefCount <$> record_of c l
               else record_of c l) as Hrel.
  { intros c. unfold released. case_decide; [|done].
    by destruct (record_of c l). }
  split_and!; try done.
  - intros b. unfold s'. rewrite assign_raw_record_of. cbv zeta. fold l.
    rewrite <- !Hrel. case_decide; [|done]. by destruct (released a).
  - apply assign_raw_keeps_records.
  - intros d Hd Hone Hne. unfold s'.
    rewrite assign_raw_record_of, decide_False, decide_True by done.
    fold l. rewrite Hd. simpl. unfold PtrDetails.downRefCount, with_count.
    by rewrite Hone.
  - apply collect_leaves_no_zero.
  - intros other s'' Hd x. by eapply dtor_leaves_no_zero.
  - intros Hnz. rewrite shutdown_unfold; [done | by right].
Qed.

(** ** Copy construction and assignment of a [Pointer] *)

Lemma copy_ctor_unfold ob s :
  copy_ctor ob s =
    match record_of (addr ob) (refContainer s) with
    | Some _ =>
        Done (set_refContainer
                (alter PtrDetails.upRefCount
                   (findPtrInfo (addr ob) (refContainer s)) (refContainer s)) s,
              ob)
    | None => Undefined
    end.
Proof.
  unfold copy_ctor. destruct ob as [a f n]. simpl.
  destruct (record_of _ _) as [d|] eqn:Hd.
  - by erewrite at_iterator_found.
  - by rewrite at_iterator_end.
Qed.

Lemma assign_ptr_unfold rv this s :
  assign_ptr rv this s =
    if decide (addr this = addr rv) then Done (s, this)
    else
      let l := refContainer s in
      match record_of (addr this) l, record_of (addr rv) l with
      | Some _, Some _ =>
          let l1 := alter PtrDetails.downRefCount (findPtrInfo (addr this) l) l in
          Done (set_refContainer
                  (alter PtrDetails.upRefCount (findPtrInfo (addr rv) l1) l1) s,
                rv)
      | _, _ => Undefined
      end.
Proof.
  unfold assign_ptr. destruct rv as [a f n]. simpl.
  destruct (decide (addr this = a)) as [Heq|Hne].
  - rewrite decide_False; [done | by intros []].
  - rewrite decide_True by done.
    destruct (record_of (addr this) (refContainer s)) as [d|] eqn:Hd.
    + erewrite at_iterator_found by done. simpl.
      pose proof (record_of_alter PtrDetails.downRefCount downRefCount_memPtr
                    (addr this) a (refContainer s)) as Hrv.
      rewrite decide_False in Hrv by done.
      destruct (record_of a (refContainer s)) as [e|] eqn:He.
      * by erewrite at_iterator_found.
      * by rewrite at_iterator_end.
    + rewrite at_iterator_end by done. simpl.
      by destruct (record_of a (refContainer s)).
Qed.

Lemma up_down_refCount d :
  (0 ≤ PtrDetails.refCount d < 2 ^ 32)%Z →
  (PtrDetails.upRefCount ∘ PtrDetails.downRefCount) d = d.
Proof.
  intros Hrange. destruct d as [c p b n]. cbn in *.
  unfold PtrDetails.upRefCount, PtrDetails.downRefCount, PtrDetails.set_refCount.
  cbn. f_equal. unfold to_unsigned.
  rewrite Zplus_mod_idemp_l. replace (c - 1 + 1)%Z with c by lia.
  by apply Z.mod_small.
Qed.

(** C8.  [h = rv] compares the two objects by address.  When the
    addresses are equal (in particular when [rv] is [h] itself) nothing
    changes.  Otherwise the record of [h]'s address is decremented, the
    record of [rv]'s address is incremented, and [h] takes the address,
    the array flag and the array length of [rv].  In no case is a record
    erased or anything deallocated.  Between two objects at the same
    address, doing nothing leaves [refContainer] as decrementing and then
    incrementing the record would. *)
Theorem assign_ptr_by_address rv this s :
  let l := refContainer s in
  (addr this = addr rv → assign_ptr rv this s = Done (s, this)) ∧
  (addr this ≠ addr rv →
   ∀ d e, record_of (addr this) l = Some d → record_of (addr rv) l = Some e →
     ∃ s', assign_ptr rv this s =
             Done (s', {| addr := addr rv; isArray := isArray rv;
                          arraySize := arraySize rv |}) ∧
           (∀ b, record_of b (refContainer s') =
                   if decide (b = addr rv) then Some (PtrDetails.upRefCount e)
                   else if decide (b = addr this)
                        then Some (PtrDetails.downRefCount d)
                        else record_of b l)) ∧
  (∀ s' this', assign_ptr rv this s = Done (s', this') →
     freed s' = freed s ∧
     PtrDetails.memPtr <$> refContainer s' = PtrDetails.memPtr <$> l ∧
     first s' = first s ∧ atexit_calls s' = atexit_calls s) ∧
  (addr this = addr rv →
   ∀ d, record_of (addr this) l = Some d →
        (0 ≤ PtrDetails.refCount d < 2 ^ 32)%Z →
     let l1 := alter PtrDetails.downRefCount (findPtrInfo (addr this) l) l in
     alter PtrDetails.upRefCount (findPtrInfo (addr rv) l1) l1 = l).
Proof.
  intros l. rewrite assign_ptr_unfold. cbv zeta. fold l. split_and!.
  - intros Heq. by rewrite decide_True.
  - intros Hne d e Hd He. rewrite decide_False, Hd, He by done.
    eexists. split; [by destruct rv|]. intros b. simpl.
    rewrite !record_of_alter by done.
    rewrite (decide_False (P := addr rv = addr this)) by (by intros ?).
    rewrite Hd, He. simpl. by repeat case_decide.
  - intros s' this'. case_decide; [by intros [= <- <-]|].
    destruct (record_of (addr this) l), (record_of (addr rv) l); try done.
    intros [= <- <-]. simpl. by rewrite !fmap_memPtr_alter.
  - intros <- d Hd Hrange. rewrite findPtrInfo_alter by done.
    rewrite list_alter_alter_eq.
    transitivity (alter id (findPtrInfo (addr this) l) l);
      [|by apply list_alter_id].
    apply list_alter_ext; [|done]. intros x Hx.
    unfold record_of in Hd. rewrite Hd in Hx. injection Hx as <-.
    by rewrite (up_down_refCount d).
Qed.

(** ** A [Pointer] whose address has no record *)


(** ** The null pointer *)


(** ** The constructor without arguments *)

Lemma down_up_refCount d :
  (0 ≤ PtrDetails.refCount d < 2 ^ 32)%Z →
  (PtrDetails.downRefCount ∘ PtrDetails.upRefCount) d = d.
Proof.
  intros Hrange. destruct d as [c p b n]. cbn in *.
  unfold PtrDetails.upRefCount, PtrDetails.downRefCount, PtrDetails.set_refCount.
  cbn. f_equal. unfold to_unsigned.
  rewrite Zminus_mod_idemp_l. replace (c + 1 - 1)%Z with c by lia.
  by apply Z.mod_small.
Qed.

Lemma alter_round_trip f g a (l : list PtrDetails.t) d :
  (∀ x, PtrDetails.memPtr (g x) = PtrDetails.memPtr x) →
  record_of a l = Some d → (f ∘ g) d = d →
  alter f (findPtrInfo a (alter g (findPtrInfo a l) l))
    (alter g (findPtrInfo a l) l) = l.
Proof.
  intros Hg Hd Hfg. rewrite findPtrInfo_alter by done.
  rewrite list_alter_alter_eq.
  transitivity (alter id (findPtrInfo a l) l); [|by apply list_alter_id].
  apply list_alter_ext; [|done]. intros x Hx.
  unfold record_of in Hd. rewrite Hd in Hx. by injection Hx as <-.
Qed.

Lemma default_ctor_leaves_done size storage s :
  ∃ s2, default_ctor size storage s = Done (s2, storage).
Proof.
  unfold default_ctor.
  pose proof (ctor_record_of size NULL NULL s) as Hr.
  rewrite decide_True in Hr by done.
  assert (addr (ctor size NULL s).2 = NULL) as Ha by done.
  destruct (ctor size NULL s) as [s1 tmp]. cbn in *.
  rewrite dtor_unfold, Ha, Hr. by eexists.
Qed.

(** [Pointer()] with no record for [NULL]: the temporary's record is
    created with count 1, decremented to 0 and erased by [collect]. *)
Lemma default_ctor_fresh size storage s :
  record_of NULL (refContainer s) = None →
  default_ctor size storage s =
    Done ({| refContainer := filter (λ d, ¬ zero_count d) (refContainer s);
             first := false;
             atexit_calls := if first s then S (atexit_calls s) else atexit_calls s;
             freed :=
               freed s ++ (PtrDetails.release <$> filter zero_count (refContainer s)) ++
                 [if bool_decide (0 < to_unsigned size)%Z
                  then DeleteArray NULL else Delete NULL] |},
          storage).
Proof.
  intros Hnone. unfold default_ctor.
  assert (refContainer (ctor size NULL s).1 =
            refContainer s ++ [PtrDetails.new NULL (to_unsigned size)]) as Hl1
    by by rewrite ctor_refContainer, Hnone.
  assert (first (ctor size NULL s).1 = false ∧
          atexit_calls (ctor size NULL s).1 =
            (if first s then S (atexit_calls s) else atexit_calls s) ∧
          freed (ctor size NULL s).1 = freed s ∧
          addr (ctor size NULL s).2 = NULL) as (Hf & Ha & Hfr & Hn) by done.
  destruct (ctor size NULL s) as [s1 tmp]. simpl in Hl1, Hf, Ha, Hfr, Hn.
  apply record_of_None in Hnone.
  erewrite (dtor_last tmp s1); [| exact Hl1 | by rewrite Hn | by rewrite Hn].
  simpl. rewrite Hf, Ha, Hfr, app_nil_r. by do 4 f_equal.
Qed.

(** [Pointer()] with a record for [NULL]: its count goes up and down
    again, and [collect] runs. *)
Lemma default_ctor_counted size storage s d :
  record_of NULL (refContainer s) = Some d →
  (0 ≤ PtrDetails.refCount d < 2 ^ 32)%Z →
  default_ctor size storage s =
    Done ({| refContainer := filter (λ d, ¬ zero_count d) (refContainer s);
             first := false;
             atexit_calls := if first s then S (atexit_calls s) else atexit_calls s;
             freed :=
               freed s ++ (PtrDetails.release <$> filter zero_count (refContainer s)) |},
          storage).
Proof.
  intros Hd Hrange. unfold default_ctor.
  assert (refContainer (ctor size NULL s).1 =
            alter PtrDetails.upRefCount (findPtrInfo NULL (refContainer s))
              (refContainer s)) as Hl1
    by by rewrite ctor_refContainer, Hd.
  assert (first (ctor size NULL s).1 = false ∧
          atexit_calls (ctor size NULL s).1 =
            (if first s then S (atexit_calls s) else atexit_calls s) ∧
          freed (ctor size NULL s).1 = freed s ∧
          addr (ctor size NULL s).2 = NULL) as (Hf & Ha & Hfr & Hn) by done.
  destruct (ctor size NULL s) as [s1 tmp]. simpl in Hl1, Hf, Ha, Hfr, Hn.
  rewrite dtor_unfold, Hn, Hl1.
  rewrite record_of_alter, decide_True, Hd by done. simpl.
  rewrite (alter_round_trip _ _ NULL (refContainer s) d)
    by (done || by apply down_up_refCount).
  rewrite collect_unfold. simpl. by rewrite Hf, Ha, Hfr.
Qed.

(** C10.  [Pointer()] never writes the members of the object it
    constructs: the object has afterwards whatever its storage held,
    which need not be [NULL] nor the array flag and length of the
    instantiation.  Its body constructs a temporary over [NULL] and
    destroys it.  The temporary registers [NULL] (a record with
    [refCount] 1, or the existing count plus one); its destructor takes
    the count down again and runs [collect].  With no record for [NULL]
    before, the record just made is erased and [NULL] is passed to
    [delete] or [delete[]]; with one, its count is restored.  In both
    cases the records at [0] are swept.  The object itself is not
    registered: constructed first in a program, it is alive with an
    empty registry, and destroying it is undefined. *)
Theorem default_ctor_leaves_members_unset size storage s :
  let l := refContainer s in
  let with_count c d :=
    {| PtrDetails.refCount := c; PtrDetails.memPtr := PtrDetails.memPtr d;
       PtrDetails.isArray := PtrDetails.isArray d;
       PtrDetails.arraySize := PtrDetails.arraySize d |} in
  let delete_null :=
    if bool_decide (0 < size mod 2 ^ 32)%Z then DeleteArray NULL else Delete NULL in
  let kept := filter (λ d, PtrDetails.refCount d ≠ 0%Z) l in
  let swept :=
    (λ d, if PtrDetails.isArray d
          then DeleteArray (PtrDetails.memPtr d)
          else Delete (PtrDetails.memPtr d)) <$>
      filter (λ d, PtrDetails.refCount d = 0%Z) l in
  let hooks := if first s then S (atexit_calls s) else atexit_calls s in
  addr (ctor size NULL s).2 = NULL ∧
  record_of NULL (refContainer (ctor size NULL s).1) =
    Some (match record_of NULL l with
          | Some d => with_count ((PtrDetails.refCount d + 1) mod 2 ^ 32)%Z d
          | None =>
              {| PtrDetails.refCount := 1; PtrDetails.memPtr := NULL;
                 PtrDetails.isArray := bool_decide (0 < size mod 2 ^ 32)%Z;
                 PtrDetails.arraySize := (size mod 2 ^ 32)%Z |}
          end) ∧
  (record_of NULL l = None →
     default_ctor size storage s =
       Done ({| refContainer := kept; first := false; atexit_calls := hooks;
                freed := freed s ++ swept ++ [delete_null] |},
             storage)) ∧
  (∀ d, record_of NULL l = Some d → (0 ≤ PtrDetails.refCount d < 2 ^ 32)%Z →
     default_ctor size storage s =
       Done ({| refContainer := kept; first := false; atexit_calls := hooks;
                freed := freed s ++ swept |},
             storage)) ∧
  run size [DefaultConstruct storage] start =
    Done (mkProgram
            {| refContainer := []; first := false; atexit_calls := 1;
               freed := [delete_null] |}
            [Some storage]) ∧
  run size [DefaultConstruct storage; Destroy 0] start = Undefined ∧
  run size [DefaultConstruct storage; CopyConstruct 0] start = Undefined.
Proof.
  intros l with_count delete_null kept swept hooks.
  assert (exec size (DefaultConstruct storage) start =
            Done (mkProgram
                    {| refContainer := []; first := false; atexit_calls := 1;
                       freed := [delete_null] |}
                    [Some storage])) as Hfirst.
  { unfold exec. cbn [globals objects start].
    by rewrite (default_ctor_fresh size storage initial). }
  split_and!.
  - done.
  - rewrite ctor_record_of, decide_True by done. fold l.
    by destruct (record_of NULL l).
  - intros Hnone. by rewrite (default_ctor_fresh size storage s).
  - intros d Hd Hrange. by rewrite (default_ctor_counted size storage s d).
  - cbn [run]. by rewrite Hfirst.
  - cbn [run]. rewrite Hfirst. cbn [mbind outcome_bind].
    unfold exec. cbn [globals objects]. unfold object_at.
    cbn [lookup list_lookup]. cbn [mbind outcome_bind].
    by rewrite dtor_unfold.
  - cbn [run]. rewrite Hfirst. cbn [mbind outcome_bind].
    unfold exec. cbn [globals objects]. unfold object_at.
    cbn [lookup list_lookup]. cbn [mbind outcome_bind].
    by rewrite copy_ctor_unfold.
Qed.

(** ** One record per address *)

#[local] Arguments ctor : simpl never.
#[local] Arguments copy_ctor : simpl never.
#[local] Arguments dtor : simpl never.
#[local] Arguments assign_raw : simpl never.
#[local] Arguments assign_ptr : simpl never.
#[local] Arguments default_ctor : simpl never.
#[local] Arguments collect : simpl never.
#[local] Arguments shutdown : simpl never.

Lemma ctor_distinct size a s :
  distinct_addresses s → distinct_addresses (ctor size a s).1.
Proof.
  unfold distinct_addresses. rewrite ctor_refContainer.
  destruct (record_of a (refContainer s)) eqn:Hd; intros Hnd.
  - by rewrite fmap_memPtr_alter.
  - by apply NoDup_memPtr_emplace_back.
Qed.

Lemma copy_ctor_distinct ob s s' p :
  copy_ctor ob s = Done (s', p) → distinct_addresses s → distinct_addresses s'.
Proof.
  rewrite copy_ctor_unfold. destruct (record_of _ _); [|done].
  intros [= <- <-]. unfold distinct_addresses. simpl.
  by rewrite fmap_memPtr_alter.
Qed.

Lemma collect_distinct s :
  distinct_addresses s → distinct_addresses (collect s).2.
Proof.
  unfold distinct_addresses. rewrite collect_unfold. simpl.
  apply NoDup_memPtr_filter.
Qed.

Lemma dtor_distinct this s s' :
  dtor this s = Done s' → distinct_addresses s → distinct_addresses s'.
Proof.
  rewrite dtor_unfold. destruct (record_of _ _); [|done].
  intros [= <-] Hnd. apply collect_distinct.
  unfold distinct_addresses. simpl. by rewrite fmap_memPtr_alter.
Qed.

Lemma assign_raw_distinct size a this s :
  distinct_addresses s → distinct_addresses (assign_raw size a this s).1.1.
Proof.
  unfold distinct_addresses. rewrite assign_raw_refContainer. cbv zeta.
  set (l1 := match record_of (addr this) (refContainer s) with
             | Some _ => _ | None => _ end).
  intros Hnd.
  assert (NoDup (PtrDetails.memPtr <$> l1)) as Hnd1.
  { unfold l1. destruct (record_of _ _); [|done]. by rewrite fmap_memPtr_alter. }
  destruct (record_of a l1) eqn:Hd.
  - by rewrite fmap_memPtr_alter.
  - by apply NoDup_memPtr_emplace_back.
Qed.

Lemma assign_ptr_distinct rv this s s' p :
  assign_ptr rv this s = Done (s', p) → distinct_addresses s → distinct_addresses s'.
Proof.
  rewrite assign_ptr_unfold. cbv zeta. case_decide; [by intros [= <- <-]|].
  destruct (record_of (addr this) (refContainer s)),
    (record_of (addr rv) (refContainer s)); try done.
  intros [= <- <-]. unfold distinct_addresses. simpl.
  by rewrite !fmap_memPtr_alter.
Qed.

Lemma shutdown_distinct s : distinct_addresses s → distinct_addresses (shutdown s).
Proof.
  intros Hnd. destruct (shutdown_cases s) as [-> | ->]; [done|].
  unfold distinct_addresses. simpl. apply NoDup_nil_2.
Qed.

Lemma default_ctor_distinct size storage s s' p :
  default_ctor size storage s = Done (s', p) →
  distinct_addresses s → distinct_addresses s'.
Proof.
  unfold default_ctor. pose proof (ctor_distinct size NULL s) as Hc.
  destruct (ctor size NULL s) as [s1 tmp]. simpl in Hc.
  destruct (dtor tmp s1) as [s2|] eqn:Hd; [|done]. simpl.
  intros [= <- <-] Hnd. eapply dtor_distinct; eauto.
Qed.

Lemma exec_distinct size op st st' :
  exec size op st = Done st' →
  distinct_addresses (globals st) → distinct_addresses (globals st').
Proof.
  destruct st as [s objs]. unfold exec. cbn. destruct op; cbn.
  - pose proof (ctor_distinct size a s) as Hc.
    destruct (ctor size a s). by intros [= <-].
  - destruct (object_at ob objs) as [o|]; [|done]. cbn.
    destruct (copy_ctor o s) as [[s' p]|] eqn:Hc; [|done]. cbn.
    intros [= <-]. cbn. by eapply copy_ctor_distinct.
  - destruct (object_at h objs) as [o|]; [|done]. cbn.
    destruct (dtor o s) as [s'|] eqn:Hd; [|done]. cbn.
    intros [= <-]. cbn. by eapply dtor_distinct.
  - destruct (object_at h objs) as [o|]; [|done]. cbn.
    pose proof (assign_raw_distinct size a o s) as Hc.
    destruct (assign_raw size a o s) as [[s' p] r]. by intros [= <-].
  - destruct (object_at h objs) as [o|]; [|done]. cbn.
    destruct (object_at rv objs) as [r|]; [|done]. cbn.
    destruct (assign_ptr r o s) as [[s' p]|] eqn:Hc; [|done]. cbn.
    intros [= <-]. cbn. by eapply assign_ptr_distinct.
  - intros [= <-]. cbn. apply collect_distinct.
  - intros [= <-]. cbn. apply shutdown_distinct.
  - destruct (default_ctor size storage s) as [[s' p]|] eqn:Hc; [|done]. cbn.
    intros [= <-]. cbn. by eapply default_ctor_distinct.
Qed.

Lemma run_distinct size ops st st' :
  run size ops st = Done st' →
  distinct_addresses (globals st) → distinct_addresses (globals st').
Proof.
  revert st. induction ops as [|op ops IH]; intros st; simpl.
  - by intros [= <-].
  - destruct (exec size op st) as [st1|] eqn:He; [|done]. simpl.
    intros Hrun Hnd. apply (IH st1 Hrun). by eapply exec_distinct.
Qed.

(** C9.  After any sequence of operations on [Pointer] objects, started
    before any [Pointer] exists, [refContainer] holds at most one record
    per address. *)
Theorem one_record_per_address size ops st :
  run size ops start = Done st →
  NoDup (PtrDetails.memPtr <$> refContainer (globals st)) ∧
  ∀ a, length (filter (λ d, PtrDetails.memPtr d = a) (refContainer (globals st))) ≤ 1.
Proof.
  intros Hrun.
  assert (NoDup (PtrDetails.memPtr <$> refContainer (globals st))) as Hnd.
  { apply (run_distinct _ _ _ _ Hrun). apply NoDup_nil_2. }
  split; [done|]. intros a.
  induction (refContainer (globals st)) as [|x l IH]; [simpl; lia|].
  rewrite fmap_cons in Hnd. apply NoDup_cons in Hnd as [Hx Hnd].
  destruct (decide (PtrDetails.memPtr x = a)) as [Hxa|Hxa].
  - rewrite filter_cons_True by done. subst a.
    rewrite filter_memPtr_absent by done. simpl. lia.
  - rewrite filter_cons_False by done. by apply IH.
Qed.

(** ** Counts and live objects *)

Lemma holders_app a (l k : list (option Pointer.t)) :
  holders a (l ++ k) = holders a l + holders a k.
Proof. induction l as [|o l IH]; simpl; [done|]. rewrite IH. lia. Qed.

Lemma holders_le a (l : list (option Pointer.t)) : holders a l ≤ length l.
Proof. induction l as [|o l IH]; simpl; [lia|]. destruct (holds a o); lia. Qed.

Lemma holders_insert a h o o' (l : list (option Pointer.t)) :
  l !! h = Some o →
  holders a (<[h := o']> l) + (if holds a o then 1 else 0) =
    holders a l + (if holds a o' then 1 else 0).
Proof.
  revert h. induction l as [|x l IH]; intros [|h] Hh; simplify_eq/=.
  - lia.
  - specialize (IH h Hh). lia.
Qed.

Lemma object_at_Done h (objs : list (option Pointer.t)) p :
  object_at h objs = Done p ↔ objs !! h = Some (Some p).
Proof.
  unfold object_at. destruct (objs !! h) as [[q|]|]; split; congruence.
Qed.

Lemma holders_live h (objs : list (option Pointer.t)) p :
  objs !! h = Some (Some p) → 1 ≤ holders (addr p) objs.
Proof.
  revert h. induction objs as [|x l IH]; intros [|h] Hh; simplify_eq/=.
  - rewrite bool_decide_eq_true_2 by done. lia.
  - specialize (IH h Hh). lia.
Qed.

Lemma count_of_alter f a b (l : list PtrDetails.t) :
  (∀ d, PtrDetails.memPtr (f d) = PtrDetails.memPtr d) →
  count_of b (alter f (findPtrInfo a l) l) =
    if decide (b = a) then
      match record_of a l with
      | Some d => PtrDetails.refCount (f d)
      | None => 0%Z
      end
    else count_of b l.
Proof.
  intros Hf. unfold count_of. rewrite record_of_alter by done.
  case_decide; [|done]. by destruct (record_of a l).
Qed.

Lemma count_of_up a b (l : list PtrDetails.t) :
  is_Some (record_of a l) →
  count_of b (alter PtrDetails.upRefCount (findPtrInfo a l) l) =
    if decide (b = a) then to_unsigned (count_of a l + 1) else count_of b l.
Proof.
  intros [d Hd]. rewrite count_of_alter by done.
  unfold count_of. by rewrite Hd.
Qed.

Lemma count_of_down a b (l : list PtrDetails.t) :
  is_Some (record_of a l) →
  count_of b (alter PtrDetails.downRefCount (findPtrInfo a l) l) =
    if decide (b = a) then to_unsigned (count_of a l - 1) else count_of b l.
Proof.
  intros [d Hd]. rewrite count_of_alter by done.
  unfold count_of. by rewrite Hd.
Qed.

Lemma count_of_register size a b (l : list PtrDetails.t) :
  count_of b
    (match record_of a l with
     | Some _ => alter PtrDetails.upRefCount (findPtrInfo a l) l
     | None => emplace_back size a l
     end) =
    if decide (b = a) then to_unsigned (count_of a l + 1) else count_of b l.
Proof.
  destruct (record_of a l) as [d|] eqn:Hd.
  - apply count_of_up. by exists d.
  - unfold count_of. rewrite record_of_emplace_back by done.
    case_decide; [|done]. by rewrite Hd.
Qed.

Lemma count_of_collect b (l : list PtrDetails.t) :
  NoDup (PtrDetails.memPtr <$> l) →
  count_of b (filter (λ d, ¬ zero_count d) l) = count_of b l.
Proof.
  intros Hnd. unfold count_of. rewrite record_of_filter by done.
  destruct (record_of b l) as [d|]; [|done].
  case_decide as Hz; [done|]. unfold zero_count in Hz. by rewrite Hz.
Qed.

Lemma count_of_positive a (l : list PtrDetails.t) :
  count_of a l ≠ 0%Z → is_Some (record_of a l).
Proof. unfold count_of. destruct (record_of a l); [by eexists | done]. Qed.

Lemma to_unsigned_small z : (0 ≤ z < 2 ^ 32)%Z → to_unsigned z = z.
Proof. intros Hz. unfold to_unsigned. by apply Z.mod_small. Qed.

Ltac count_arith :=
  repeat (first [case_decide | case_bool_decide]; simplify_eq; try congruence);
  repeat match goal with
         | |- context [to_unsigned ?z] => rewrite (to_unsigned_small z) by lia
         end;
  try lia.

Section Counting.

Variable size : Z.

Lemma exec_length op st st' :
  exec size op st = Done st' → length (objects st) ≤ length (objects st').
Proof.
  destruct st as [s objs]. unfold exec. cbn. destruct op; cbn.
  - destruct (ctor size a s). intros [= <-]. cbn. rewrite length_app. lia.
  - destruct (object_at ob objs) as [o|]; [|done]. cbn.
    destruct (copy_ctor o s) as [[s' p]|]; [|done]. cbn.
    intros [= <-]. cbn. rewrite length_app. lia.
  - destruct (object_at h objs) as [o|]; [|done]. cbn.
    destruct (dtor o s) as [s'|]; [|done]. cbn.
    intros [= <-]. cbn. by rewrite length_insert.
  - destruct (object_at h objs) as [o|]; [|done]. cbn.
    destruct (assign_raw size a o s) as [[s' p] r].
    intros [= <-]. cbn. by rewrite length_insert.
  - destruct (object_at h objs) as [o|]; [|done]. cbn.
    destruct (object_at rv objs) as [r|]; [|done]. cbn.
    destruct (assign_ptr r o s) as [[s' p]|]; [|done]. cbn.
    intros [= <-]. cbn. by rewrite length_insert.
  - by intros [= <-].
  - by intros [= <-].
  - destruct (default_ctor size storage s) as [[s' p]|]; [|done]. cbn.
    intros [= <-]. cbn. rewrite length_app. lia.
Qed.

Lemma run_length ops st st' :
  run size ops st = Done st' → length (objects st) ≤ length (objects st').
Proof.
  revert st. induction ops as [|op ops IH]; intros st; cbn.
  - by intros [= <-].
  - destruct (exec size op st) as [st1|] eqn:He; [|done]. cbn.
    intros Hrun. apply exec_length in He. apply IH in Hrun. lia.
Qed.

(** One operation keeps the counts right, provided no address ends up
    held by [2^32] objects or more. *)
Lemma exec_counts_holders op st st' :
  counting op = true →
  exec size op st = Done st' →
  distinct_addresses (globals st) → counts_match st →
  (∀ a, (Z.of_nat (holders a (objects st')) < 2 ^ 32)%Z) →
  counts_match st'.
Proof.
  destruct st as [s objs]. unfold counts_match, distinct_addresses, exec.
  cbn. intros Hop Hex Hnd Hcm Hlim.
  destruct op; try done; cbn in Hex.
  - (* Construct *)
    pose proof (ctor_refContainer size a s) as Hrc.
    destruct (ctor size a s) as [s1 p] eqn:E.
    assert (p = fields_of size a) as -> by (unfold ctor in E; congruence).
    cbn in Hrc. injection Hex as <-. cbn in *. intros b.
    rewrite Hrc, count_of_register, holders_app, !Hcm. cbn.
    pose proof (Hlim a) as Hla. rewrite holders_app in Hla. cbn in Hla.
    count_arith.
  - (* CopyConstruct *)
    destruct (object_at ob objs) as [o|] eqn:Ho; [|done]. cbn in Hex.
    rewrite copy_ctor_unfold in Hex.
    destruct (record_of (addr o) (refContainer s)) as [d|] eqn:Hd; [|done].
    injection Hex as <-. cbn in *. intros b.
    rewrite count_of_up, holders_app, !Hcm by eauto. cbn.
    pose proof (Hlim (addr o)) as Hla. rewrite holders_app in Hla. cbn in Hla.
    count_arith.
  - (* Destroy *)
    destruct (object_at h objs) as [o|] eqn:Ho; [|done]. cbn in Hex.
    apply object_at_Done in Ho.
    rewrite dtor_unfold in Hex.
    destruct (record_of (addr o) (refContainer s)) as [d|] eqn:Hd; [|done].
    injection Hex as <-. rewrite collect_unfold. cbn in *. intros b.
    rewrite count_of_collect by by rewrite fmap_memPtr_alter.
    rewrite count_of_down, !Hcm by eauto.
    pose proof (holders_insert b h (Some o) None objs Ho) as Hins.
    pose proof (holders_insert (addr o) h (Some o) None objs Ho) as Hins'.
    pose proof (holders_live _ _ _ Ho).
    pose proof (Hlim (addr o)) as Hla.
    cbn in Hins, Hins'.
    count_arith.
  - (* AssignRaw *)
    destruct (object_at h objs) as [o|] eqn:Ho; [|done]. cbn in Hex.
    apply object_at_Done in Ho.
    pose proof (holders_live _ _ _ Ho) as Hlive.
    assert (is_Some (record_of (addr o) (refContainer s))) as [d Hd].
    { apply count_of_positive. rewrite Hcm. lia. }
    pose proof (assign_raw_refContainer size a o s) as Hrc.
    pose proof (assign_raw_rest size a o s) as (_ & _ & _ & Hp & _).
    cbv zeta in Hrc. rewrite Hd in Hrc.
    destruct (assign_raw size a o s) as [[s' p] r] eqn:E.
    cbn in Hrc, Hp. subst p. injection Hex as <-. cbn in *. intros b.
    rewrite Hrc, count_of_register, !count_of_down, !Hcm by eauto.
    pose proof (holders_insert b h (Some o) (Some (fields_of size a)) objs Ho) as Hb.
    pose proof (holders_insert a h (Some o) (Some (fields_of size a)) objs Ho) as Ha.
    pose proof (holders_insert (addr o) h (Some o) (Some (fields_of size a)) objs Ho)
      as Hao.
    pose proof (Hlim a) as Hla. pose proof (Hlim (addr o)) as Hlo.
    cbn in Ha, Hb, Hao.
    count_arith.
  - (* AssignPointer *)
    destruct (object_at h objs) as [o|] eqn:Ho; [|done]. cbn in Hex.
    destruct (object_at rv objs) as [r|] eqn:Hr; [|done]. cbn in Hex.
    apply object_at_Done in Ho. apply object_at_Done in Hr.
    rewrite assign_ptr_unfold in Hex. cbv zeta in Hex.
    destruct (decide (addr o = addr r)) as [Heq|Hne].
    { injection Hex as <-. cbn in *. intros b.
      rewrite list_insert_id by done. apply Hcm. }
    destruct (record_of (addr o) (refContainer s)) as [d|] eqn:Hd; [|done].
    destruct (record_of (addr r) (refContainer s)) as [e|] eqn:He; [|done].
    injection Hex as <-. cbn in *. intros b.
    rewrite count_of_up; last first.
    { rewrite record_of_alter, decide_False by done. by rewrite He. }
    rewrite !count_of_down, !Hcm by eauto.
    pose proof (holders_insert b h (Some o) (Some r) objs Ho) as Hb.
    pose proof (holders_insert (addr r) h (Some o) (Some r) objs Ho) as Ha.
    pose proof (holders_insert (addr o) h (Some o) (Some r) objs Ho) as Hao.
    pose proof (holders_live _ _ _ Ho) as Hlive.
    pose proof (Hlim (addr r)) as Hla. pose proof (Hlim (addr o)) as Hlo.
    cbn in Ha, Hb, Hao.
    count_arith.
  - (* Collect *)
    injection Hex as <-. rewrite collect_unfold. cbn. intros b.
    by rewrite count_of_collect.
Qed.

Lemma exec_counts op st st' :
  counting op = true →
  exec size op st = Done st' →
  distinct_addresses (globals st) → counts_match st →
  (Z.of_nat (length (objects st')) < 2 ^ 32)%Z →
  counts_match st'.
Proof.
  intros Hop Hex Hnd Hcm Hlen. apply (exec_counts_holders op st); try done.
  intros a. pose proof (holders_le a (objects st')). lia.
Qed.

(** While the counts match, no operation on live objects meets the end
    position: every one of them completes. *)
Lemma exec_defined op st :
  counts_match st → in_scope op (objects st) →
  ∃ st', exec size op st = Done st'.
Proof.
  destruct st as [s objs]. unfold counts_match, exec. cbn.
  intros Hcm Hsc.
  assert (∀ h p, objs !! h = Some (Some p) →
                 is_Some (record_of (addr p) (refContainer s))) as Hrec.
  { intros h p Hp. apply count_of_positive. rewrite Hcm.
    pose proof (holders_live _ _ _ Hp). lia. }
  destruct op; cbn in *.
  - destruct (ctor size a s). by eexists.
  - destruct Hsc as [p Hp]. rewrite (proj2 (object_at_Done _ _ _) Hp). cbn.
    rewrite copy_ctor_unfold. destruct (Hrec _ _ Hp) as [d ->]. by eexists.
  - destruct Hsc as [p Hp]. rewrite (proj2 (object_at_Done _ _ _) Hp). cbn.
    rewrite dtor_unfold. destruct (Hrec _ _ Hp) as [d ->]. by eexists.
  - destruct Hsc as [p Hp]. rewrite (proj2 (object_at_Done _ _ _) Hp). cbn.
    destruct (assign_raw size a p s) as [[s' p'] r]. by eexists.
  - destruct Hsc as [[p Hp] [q Hq]].
    rewrite (proj2 (object_at_Done _ _ _) Hp). cbn.
    rewrite (proj2 (object_at_Done _ _ _) Hq). cbn.
    rewrite assign_ptr_unfold. cbv zeta. case_decide; [by eexists|].
    destruct (Hrec _ _ Hp) as [d ->]. destruct (Hrec _ _ Hq) as [e ->].
    by eexists.
  - by eexists.
  - by eexists.
  - destruct (default_ctor_leaves_done size storage s) as (s2 & ->). by eexists.
Qed.

Lemma run_counts ops st st' :
  forallb counting ops = true →
  run size ops st = Done st' →
  distinct_addresses (globals st) → counts_match st →
  (Z.of_nat (length (objects st')) < 2 ^ 32)%Z →
  distinct_addresses (globals st') ∧ counts_match st'.
Proof.
  revert st. induction ops as [|op ops IH]; intros st; cbn.
  - by intros _ [= <-].
  - intros [Hop Hops]%andb_prop.
    destruct (exec size op st) as [st1|] eqn:He; [|done]. cbn.
    intros Hrun Hnd Hcm Hlen. apply (IH st1); try done.
    + by eapply exec_distinct.
    + eapply exec_counts; eauto. apply run_length in Hrun. lia.
Qed.

(** A run keeps the counts right, provided that after none of its
    prefixes an address is held by [2^32] objects or more. *)
Lemma run_counts_holders ops st st' :
  forallb counting ops = true →
  run size ops st = Done st' →
  distinct_addresses (globals st) → counts_match st →
  (∀ k st1 a, run size (take k ops) st = Done st1 →
              (Z.of_nat (holders a (objects st1)) < 2 ^ 32)%Z) →
  distinct_addresses (globals st') ∧ counts_match st'.
Proof.
  revert st. induction ops as [|op ops IH]; intros st; cbn.
  - by intros _ [= <-].
  - intros [Hop Hops]%andb_prop.
    destruct (exec size op st) as [st1|] eqn:He; [|done]. cbn.
    intros Hrun Hnd Hcm Hlim. apply (IH st1); try done.
    + by eapply exec_distinct.
    + eapply exec_counts_holders; eauto. intros a.
      apply (Hlim 1 st1 a). cbn. by rewrite He.
    + intros k st2 a Hk. apply (Hlim (S k) st2 a). cbn. by rewrite He.
Qed.

End Counting.

(** The counts are [unsigned]: [n] more constructions over the address
    of the only record add [n] modulo [2^32], so the count of an address
    held by [2^32] objects is [0]. *)
Lemma run_constructs_wrap size a n c b sz hooks objs :
  (0 ≤ c < 2 ^ 32)%Z →
  run size (replicate n (Construct a))
    (mkProgram
       {| refContainer := [PtrDetails.mk c a b sz]; first := false;
          atexit_calls := hooks; freed := [] |} objs) =
    Done (mkProgram
            {| refContainer := [PtrDetails.mk (to_unsigned (c + Z.of_nat n)) a b sz];
               first := false; atexit_calls := hooks; freed := [] |}
            (objs ++ replicate n (Some (fields_of size a)))).
Proof.
  revert c objs. induction n as [|n IH]; intros c objs Hc.
  - cbn [replicate run]. rewrite Z.add_0_r, to_unsigned_small, app_nil_r by done.
    done.
  - cbn [replicate run].
    assert (exec size (Construct a)
              (mkProgram
                 {| refContainer := [PtrDetails.mk c a b sz]; first := false;
                    atexit_calls := hooks; freed := [] |} objs) =
            Done (mkProgram
                    {| refContainer := [PtrDetails.mk (to_unsigned (c + 1)) a b sz];
                       first := false; atexit_calls := hooks; freed := [] |}
                    (objs ++ [Some (fields_of size a)]))) as ->.
    { unfold exec, ctor. cbn. by destruct (decide (a = a)). }
    cbn. rewrite IH by (unfold to_unsigned; apply Z.mod_pos_bound; lia).
    rewrite <- app_assoc. cbn. do 4 f_equal. unfold to_unsigned.
    rewrite Zplus_mod_idemp_l.
    by replace (c + 1 + Z.of_nat n)%Z with (c + Z.of_nat (S n))%Z by lia.
Qed.

(** C1, as the code has it.  Run any sequence of constructions from a
    raw pointer, copy constructions, destructions, assignments and calls
    of [collect], starting before any [Pointer] exists.  The counts are
    [unsigned] and wrap at [2^32]: as long as no address has been held
    by [2^32] live objects or more at any point of the run, after the
    run (hence after each of its operations) the [refCount] of every
    record of [refContainer] is the number of live [Pointer] objects
    whose [addr] is the record's [memPtr]. *)
Theorem refCount_is_number_of_holders size ops st :
  forallb counting ops = true →
  run size ops start = Done st →
  (∀ k st1 a, run size (take k ops) start = Done st1 →
              (Z.of_nat (holders a (objects st1)) < 2 ^ 32)%Z) →
  ∀ d, d ∈ refContainer (globals st) →
       PtrDetails.refCount d =
         Z.of_nat (holders (PtrDetails.memPtr d) (objects st)).
Proof.
  intros Hops Hrun Hlim d Hd.
  destruct (run_counts_holders size ops start st Hops Hrun) as [Hnd Hcm];
    try done.
  { apply NoDup_nil_2. }
  rewrite <- Hcm. unfold count_of. by rewrite (record_of_elem d).
Qed.

Lemma forallb_counting_constructs n a :
  forallb counting (replicate n (Construct a)) = true.
Proof. induction n as [|n IH]; [done | exact IH]. Qed.

Lemma holders_replicate a n p :
  addr p = a → holders a (replicate n (Some p)) = n.
Proof.
  intros Hp. induction n as [|n IH]; [done|].
  cbn [replicate holders holds]. rewrite bool_decide_eq_true_2 by done.
  by rewrite IH.
Qed.

(** [2^32] constructions over one address: the count is back at [0]. *)
Lemma constructs_wrap_to_zero n :
  Z.of_nat n = (2 ^ 32)%Z →
  forallb counting (replicate n (Construct 100)) = true ∧
  run 0 (replicate n (Construct 100)) start =
    Done (mkProgram
            {| refContainer := [PtrDetails.mk 0 100 false 0]; first := false;
               atexit_calls := 1; freed := [] |}
            (replicate n (Some (Pointer.mk 100 false 0)))) ∧
  PtrDetails.mk 0 100 false 0
    ∈ [PtrDetails.mk 0 100 false 0] ∧
  Z.of_nat (holders 100 (replicate n (Some (Pointer.mk 100 false 0)))) = (2 ^ 32)%Z.
Proof.
  intros Hn. split_and!.
  - apply forallb_counting_constructs.
  - destruct n as [|n]; [by cbn in Hn|].
    cbn [replicate run].
    assert (exec 0 (Construct 100) start =
            Done (mkProgram
                    {| refContainer := [PtrDetails.mk 1 100 false 0];
                       first := false; atexit_calls := 1; freed := [] |}
                    [Some (Pointer.mk 100 false 0)])) as -> by done.
    cbn [mbind outcome_bind].
    rewrite (run_constructs_wrap 0 100 n 1 false 0 1) by lia. cbn [app].
    replace (1 + Z.of_nat n)%Z with (Z.of_nat (S n)) by lia.
    rewrite Hn. done.
  - apply list_elem_of_here.
  - by rewrite holders_replicate.
Qed.

(** * Concrete runs *)

(** An array of five elements at address [100], held by an object and a
    copy of it: one record with [refCount] 2; destroying the copy leaves
    [refCount] 1 and frees nothing; destroying the original erases the
    record after one [delete[]]. *)
Example array_shared_by_a_copy :
  run 5 [Construct 100; CopyConstruct 0] start =
    Done (mkProgram
            {| refContainer := [PtrDetails.mk 2 100 true 5]; first := false;
               atexit_calls := 1; freed := [] |}
            [Some (Pointer.mk 100 true 5); Some (Pointer.mk 100 true 5)]) ∧
  run 5 [Construct 100; CopyConstruct 0; Destroy 1] start =
    Done (mkProgram
            {| refContainer := [PtrDetails.mk 1 100 true 5]; first := false;
               atexit_calls := 1; freed := [] |}
            [Some (Pointer.mk 100 true 5); None]) ∧
  run 5 [Construct 100; CopyConstruct 0; Destroy 1; Destroy 0] start =
    Done (mkProgram
            {| refContainer := []; first := false;
               atexit_calls := 1; freed := [DeleteArray 100] |}
            [None; None]).
Proof. by vm_compute. Qed.

(** A scalar at [100] whose only object is reassigned to [200]: the
    record of [100] stays, with [refCount] 0, until an unrelated object
    is destroyed. *)
Example reassigned_record_waits_for_a_sweep :
  run 0 [Construct 100; AssignRaw 0 200] start =
    Done (mkProgram
            {| refContainer := [PtrDetails.mk 0 100 false 0; PtrDetails.mk 1 200 false 0];
               first := false; atexit_calls := 1; freed := [] |}
            [Some (Pointer.mk 200 false 0)]) ∧
  run 0 [Construct 100; AssignRaw 0 200; Construct 300; Destroy 1] start =
    Done (mkProgram
            {| refContainer := [PtrDetails.mk 1 200 false 0];
               first := false; atexit_calls := 1; freed := [Delete 100; Delete 300] |}
            [Some (Pointer.mk 200 false 0); None]).
Proof. by vm_compute. Qed.

(** The count invariant does not extend to [shutdown] called while
    objects are live, nor to [Pointer()] when the storage happens to hold
    a registered address: both leave a record that does not count a live
    object at its address. *)
Example counts_after_shutdown :
  run 0 [Construct 100; Shutdown; Construct 100] start =
    Done (mkProgram
            {| refContainer := [PtrDetails.mk 1 100 false 0]; first := false;
               atexit_calls := 1; freed := [Delete 100] |}
            [Some (Pointer.mk 100 false 0); Some (Pointer.mk 100 false 0)]) ∧
  run 0 [Construct 100; DefaultConstruct (Pointer.mk 100 false 0)] start =
    Done (mkProgram
            {| refContainer := [PtrDetails.mk 1 100 false 0]; first := false;
               atexit_calls := 1; freed := [Delete NULL] |}
            [Some (Pointer.mk 100 false 0); Some (Pointer.mk 100 false 0)]).
Proof. by vm_compute. Qed.

(** ** Instances of the theorems *)


Lemma refCount_is_number_of_holders_witness :
  run 5 [Construct 100; CopyConstruct 0; Destroy 1] start =
    Done (mkProgram
            {| refContainer := [PtrDetails.mk 1 100 true 5]; first := false;
               atexit_calls := 1; freed := [] |}
            [Some (Pointer.mk 100 true 5); None]) ∧
  PtrDetails.refCount (PtrDetails.mk 1 100 true 5) =
    Z.of_nat (holders 100 [Some (Pointer.mk 100 true 5); None]).
Proof.
  split; [reflexivity|].
  apply (refCount_is_number_of_holders 5
           [Construct 100; CopyConstruct 0; Destroy 1]
           (mkProgram
              {| refContainer := [PtrDetails.mk 1 100 true 5]; first := false;
                 atexit_calls := 1; freed := [] |}
              [Some (Pointer.mk 100 true 5); None]));
    [reflexivity | reflexivity | | apply list_elem_of_here].
  intros k st1 a Hk.
  assert (length (objects st1) ≤ 2) as Hlen.
  { destruct k as [|[|[|k]]]; cbn [take] in Hk; rewrite ?take_nil in Hk;
      vm_compute in Hk; injection Hk as <-; cbn; lia. }
  pose proof (holders_le a (objects st1)). lia.
Defined.

Lemma one_record_per_address_witness :
  run 0 [Construct 5; Construct 5; Construct 6] start =
    Done (mkProgram
            {| refContainer := [PtrDetails.mk 2 5 false 0; PtrDetails.mk 1 6 false 0];
               first := false; atexit_calls := 1; freed := [] |}
            [Some (Pointer.mk 5 false 0); Some (Pointer.mk 5 false 0);
             Some (Pointer.mk 6 false 0)]) ∧
  NoDup [5%Z; 6%Z].
Proof.
  split; [reflexivity|].
  apply (one_record_per_address 0 [Construct 5; Construct 5; Construct 6]
           (mkProgram
              {| refContainer := [PtrDetails.mk 2 5 false 0; PtrDetails.mk 1 6 false 0];
                 first := false; atexit_calls := 1; freed := [] |}
              [Some (Pointer.mk 5 false 0); Some (Pointer.mk 5 false 0);
               Some (Pointer.mk 6 false 0)])).
  reflexivity.
Defined.

Lemma ctor_registers_address_witness :
  record_of 100 (refContainer initial) = None ∧
  refContainer (ctor 0 100 initial).1 = [PtrDetails.mk 1 100 false 0].
Proof.
  split; [reflexivity|].
  apply (proj1 (ctor_registers_address 0 100 initial)). reflexivity.
Defined.

Lemma assign_raw_releases_then_registers_witness :
  let s := (ctor 0 200 (ctor 0 100 initial).1).1 in
  record_of 100 (refContainer s) = Some (PtrDetails.mk 1 100 false 0) ∧
  record_of 100 (refContainer (assign_raw 0 200 (Pointer.mk 100 false 0) s).1.1) =
    Some (PtrDetails.mk 0 100 false 0) ∧
  record_of 200 (refContainer (assign_raw 0 200 (Pointer.mk 100 false 0) s).1.1) =
    Some (PtrDetails.mk 2 200 false 0).
Proof.
  intros s. split; [reflexivity|].
  pose proof (assign_raw_releases_then_registers 0 200 (Pointer.mk 100 false 0) s)
    as (Hall & _ & _ & _ & _ & Hzero & _).
  split.
  - apply (Hzero (PtrDetails.mk 1 100 false 0));
      [reflexivity | reflexivity | discriminate].
  - exact (Hall 200%Z).
Defined.

Lemma assign_ptr_by_address_witness :
  let s := (ctor 0 200 (ctor 0 100 initial).1).1 in
  ∃ s', assign_ptr (Pointer.mk 200 false 0) (Pointer.mk 100 false 0) s =
          Done (s', Pointer.mk 200 false 0) ∧
        record_of 100 (refContainer s') = Some (PtrDetails.mk 0 100 false 0) ∧
        record_of 200 (refContainer s') = Some (PtrDetails.mk 2 200 false 0).
Proof.
  intros s.
  destruct (proj1 (proj2 (assign_ptr_by_address
                            (Pointer.mk 200 false 0) (Pointer.mk 100 false 0) s))
              ltac:(discriminate)
              (PtrDetails.mk 1 100 false 0) (PtrDetails.mk 1 200 false 0)
              eq_refl eq_refl) as (s' & Hs' & Hrec).
  exists s'. split; [exact Hs'|]. split.
  - exact (Hrec 100%Z).
  - exact (Hrec 200%Z).
Defined.



Lemma default_ctor_leaves_members_unset_witness :
  record_of NULL (refContainer initial) = None ∧
  default_ctor 0 (Pointer.mk 77 true 3) initial =
    Done ({| refContainer := []; first := false; atexit_calls := 1;
             freed := [Delete NULL] |},
          Pointer.mk 77 true 3).
Proof.
  split; [reflexivity|].
  pose proof (default_ctor_leaves_members_unset 0 (Pointer.mk 77 true 3) initial)
    as (_ & _ & Hfresh & _).
  apply Hfresh. reflexivity.
Defined.

(** ** Where the code departs from the specification *)

Lemma shutdown_at_multiple_of_2_32 n (l : list PtrDetails.t) f h lg :
  length l = n → Z.of_nat n = (2 ^ 32)%Z →
  shutdown {| refContainer := l; first := f; atexit_calls := h; freed := lg |} =
    {| refContainer := l; first := f; atexit_calls := h; freed := lg |} ∧
  l ≠ [].
Proof.
  intros Hlen Hn. split.
  - apply shutdown_skips, refContainerSize_zero. cbn [refContainer].
    rewrite Hlen, Hn. apply Z.mod_same. lia.
  - intros ->. cbn in Hlen. subst n. cbn in Hn. lia.
Qed.


(** C1 fails for a count of [2^32]: after [2^32] constructions over the
    address [100] its record has [refCount] [0] while [2^32] live objects
    hold it. *)
Lemma refCount_wraps_at_2_32_holders :
  forallb counting (replicate (Z.to_nat (2 ^ 32)) (Construct 100)) = true ∧
  run 0 (replicate (Z.to_nat (2 ^ 32)) (Construct 100)) start =
    Done (mkProgram
            {| refContainer := [PtrDetails.mk 0 100 false 0]; first := false;
               atexit_calls := 1; freed := [] |}
            (replicate (Z.to_nat (2 ^ 32)) (Some (Pointer.mk 100 false 0)))) ∧
  PtrDetails.mk 0 100 false 0
    ∈ [PtrDetails.mk 0 100 false 0] ∧
  Z.of_nat (holders 100
              (replicate (Z.to_nat (2 ^ 32)) (Some (Pointer.mk 100 false 0)))) =
    (2 ^ 32)%Z.
Proof.
  apply (constructs_wrap_to_zero (Z.to_nat (2 ^ 32))).
  apply Z2Nat.id. apply Z.pow_nonneg. lia.
Qed.



(** * Further properties of the code *)

(** ** Lookup *)

(** X1.  [findPtrInfo] returns the position of the first record whose
    [memPtr] is the pointer looked for: no record before that position
    has it, the record at that position has it, and the end position is
    returned exactly when no record has it. *)
Theorem findPtrInfo_first_match a (l : list PtrDetails.t) :
  let p := findPtrInfo a l in
  p ≤ length l ∧
  (∀ i d, i < p → l !! i = Some d → PtrDetails.memPtr d ≠ a) ∧
  (∀ d, l !! p = Some d → PtrDetails.memPtr d = a) ∧
  (p = length l ↔ ∀ d, d ∈ l → PtrDetails.memPtr d ≠ a).
Proof.
  cbv zeta. split_and!.
  - apply findPtrInfo_le.
  - induction l as [|x l IH]; intros i d Hi Hd; cbn in *; [lia|].
    case_decide as Hx; [lia|].
    destruct i as [|i]; cbn in Hd; [congruence|].
    apply (IH i d); [lia | done].
  - apply findPtrInfo_lookup.
  - rewrite findPtrInfo_end. split.
    + intros Hnin d Hd Heq. apply Hnin. rewrite <- Heq.
      by apply list_elem_of_fmap_2.
    + intros Hall Hin. apply list_elem_of_fmap in Hin as (d & -> & Hd).
      by apply (Hall d).
Qed.

(** ** Sweeping twice *)

Lemma filter_nonzero_twice (l : list PtrDetails.t) :
  filter (λ d, ¬ zero_count d) (filter (λ d, ¬ zero_count d) l) =
    filter (λ d, ¬ zero_count d) l ∧
  filter zero_count (filter (λ d, ¬ zero_count d) l) = [] ∧
  existsb PtrDetails.zeroRefCount (filter (λ d, ¬ zero_count d) l) = false.
Proof.
  induction l as [|x l (IH1 & IH2 & IH3)]; [done|].
  destruct (decide (zero_count x)) as [Hz|Hz].
  - by rewrite filter_cons_False by tauto.
  - rewrite filter_cons_True by done.
    rewrite filter_cons_True, (filter_cons_False zero_count) by done.
    rewrite IH1, IH2. cbn. rewrite IH3.
    by rewrite (proj2 (zeroRefCount_false x) Hz).
Qed.

(** X2.  [collect] is idempotent: called again right after a call, it
    returns [false], deallocates nothing and leaves [refContainer] as it
    is.  And whenever [collect] returns [false] it has changed nothing. *)
Theorem collect_twice s :
  collect (collect s).2 = (false, (collect s).2) ∧
  ((collect s).1 = false → (collect s).2 = s).
Proof.
  split.
  - rewrite !collect_unfold. cbn.
    destruct (filter_nonzero_twice (refContainer s)) as (-> & -> & ->).
    by rewrite app_nil_r.
  - rewrite collect_unfold. cbn. intros Hnone. destruct s as [l f n lg]. cbn in *.
    assert (filter (λ d, ¬ zero_count d) l = l ∧ filter zero_count l = [])
      as [-> ->]; [|by rewrite app_nil_r].
    induction l as [|x l IH]; [done|]. cbn in Hnone.
    apply orb_false_elim in Hnone as [Hx Hl]. apply zeroRefCount_false in Hx.
    destruct (IH Hl) as [IH1 IH2].
    rewrite filter_cons_True, (filter_cons_False zero_count) by tauto.
    by rewrite IH1, IH2.
Qed.

(** ** Round trips *)

Lemma set_refContainer_id s : set_refContainer (refContainer s) s = s.
Proof. by destruct s. Qed.

(** X3.  Constructing a [Pointer] and destroying it at once.  Over an
    address that has no record, the record is created and erased again:
    the outcome is that of [collect] followed by one deallocation of the
    address.  Over an address that has a record, the count goes up and
    down again and the outcome is that of [collect] alone. *)
Theorem construct_then_destroy size a s :
  let s1 := (ctor size a s).1 in
  let h := (ctor size a s).2 in
  (record_of a (refContainer s) = None →
     ∃ s2, dtor h s1 = Done s2 ∧
       refContainer s2 = refContainer (collect s).2 ∧
       freed s2 =
         freed (collect s).2 ++
           [if bool_decide (0 < to_unsigned size)%Z
            then DeleteArray a else Delete a]) ∧
  (∀ d, record_of a (refContainer s) = Some d →
        (0 ≤ PtrDetails.refCount d < 2 ^ 32)%Z →
     ∃ s2, dtor h s1 = Done s2 ∧
       refContainer s2 = refContainer (collect s).2 ∧
       freed s2 = freed (collect s).2).
Proof.
  intros s1 h.
  assert (addr h = a) as Hh by done.
  assert (freed s1 = freed s) as Hf by done.
  split.
  - intros Hnone.
    assert (refContainer s1 = refContainer s ++ [PtrDetails.new a (to_unsigned size)])
      as Hl1 by (unfold s1; by rewrite ctor_refContainer, Hnone).
    apply record_of_None in Hnone.
    erewrite (dtor_last h s1); [| exact Hl1 | by rewrite Hh | by rewrite Hh].
    eexists. split; [done|]. rewrite collect_unfold, Hf. cbn.
    rewrite !app_nil_r. split; [done|]. rewrite <- app_assoc. by do 2 f_equal.
  - intros d Hd Hrange.
    assert (refContainer s1 =
              alter PtrDetails.upRefCount (findPtrInfo a (refContainer s)) (refContainer s))
      as Hl1 by (unfold s1; by rewrite ctor_refContainer, Hd).
    rewrite dtor_unfold, Hh, Hl1.
    rewrite record_of_alter, decide_True, Hd by done. cbn.
    rewrite (alter_round_trip _ _ a (refContainer s) d)
      by (done || by apply down_up_refCount).
    eexists. split; [done|]. rewrite !collect_unfold. cbn. by rewrite Hf.
Qed.

(** X4.  Copying a [Pointer] and destroying the copy at once is the same
    as calling [collect]: the count of the address goes up and down
    again. *)
Theorem copy_then_destroy ob s d :
  record_of (addr ob) (refContainer s) = Some d →
  (0 ≤ PtrDetails.refCount d < 2 ^ 32)%Z →
  ∃ s1, copy_ctor ob s = Done (s1, ob) ∧
        dtor ob s1 = Done (collect s).2.
Proof.
  intros Hd Hrange. rewrite copy_ctor_unfold, Hd. eexists. split; [done|].
  rewrite dtor_unfold. cbn [refContainer set_refContainer].
  rewrite record_of_alter, decide_True, Hd by done. cbn.
  rewrite (alter_round_trip _ _ (addr ob) (refContainer s) d)
    by (done || by apply down_up_refCount).
  by rewrite !collect_unfold.
Qed.

(** X5.  Assigning to a [Pointer] the raw address it already has leaves
    the statics as they are: the count of the address goes down and up
    again, and since no [collect] runs in between the record survives
    even when its count passes through [0]. *)
Theorem assign_own_address size this s d :
  record_of (addr this) (refContainer s) = Some d →
  (0 ≤ PtrDetails.refCount d < 2 ^ 32)%Z →
  assign_raw size (addr this) this s = (s, fields_of size (addr this), addr this).
Proof.
  intros Hd Hrange.
  pose proof (assign_raw_refContainer size (addr this) this s) as Hrc.
  cbv zeta in Hrc. rewrite Hd in Hrc.
  rewrite record_of_alter, decide_True, Hd in Hrc by done. cbn in Hrc.
  rewrite (alter_round_trip _ _ (addr this) (refContainer s) d) in Hrc
    by (done || by apply up_down_refCount).
  destruct (assign_raw_rest size (addr this) this s) as (Hf & Hfi & Hat & Hp & Hr).
  destruct (assign_raw size (addr this) this s) as [[s' p] r]. cbn in *.
  subst p r. do 2 f_equal. destruct s, s'. cbn in *. congruence.
Qed.

(** ** Registration of [shutdown] *)

Lemma dtor_first this s s' :
  dtor this s = Done s' →
  first s' = first s ∧ atexit_calls s' = atexit_calls s.
Proof.
  rewrite dtor_unfold. destruct (record_of _ _); [|done].
  intros [= <-]. by rewrite collect_unfold.
Qed.

Lemma exec_first size op st st' :
  exec size op st = Done st' →
  first (globals st') = first (globals st) && negb (constructs op) ∧
  atexit_calls (globals st') =
    atexit_calls (globals st) +
      (if first (globals st) && constructs op then 1 else 0).
Proof.
  destruct st as [s objs]. unfold exec. cbn. destruct op; cbn.
  - intros [= <-]. cbn. destruct (first s); cbn; split; (done || lia).
  - destruct (object_at ob objs) as [o|]; [|done]. cbn.
    rewrite copy_ctor_unfold. destruct (record_of _ _); [|done]. cbn.
    intros [= <-]. cbn. rewrite !andb_false_r, andb_true_r. split; (done || lia).
  - destruct (object_at h objs) as [o|]; [|done]. cbn.
    destruct (dtor o s) as [s'|] eqn:Hd; [|done]. cbn.
    intros [= <-]. cbn. apply dtor_first in Hd as [-> ->].
    rewrite !andb_false_r, andb_true_r. split; (done || lia).
  - destruct (object_at h objs) as [o|]; [|done]. cbn.
    destruct (assign_raw_rest size a o s) as (_ & Hf & Ha & _).
    destruct (assign_raw size a o s) as [[s' p] r]. cbn in *.
    intros [= <-]. cbn. rewrite Hf, Ha.
    rewrite !andb_false_r, andb_true_r. split; (done || lia).
  - destruct (object_at h objs) as [o|]; [|done]. cbn.
    destruct (object_at rv objs) as [r|]; [|done]. cbn.
    rewrite assign_ptr_unfold. cbv zeta.
    rewrite !andb_false_r, andb_true_r.
    case_decide; [intros [= <-]; cbn; split; (done || lia)|].
    destruct (record_of (addr o) (refContainer s)),
      (record_of (addr r) (refContainer s)); try done.
    cbn. intros [= <-]. cbn. split; (done || lia).
  - intros [= <-]. cbn. rewrite collect_unfold. cbn.
    rewrite !andb_false_r, andb_true_r. split; (done || lia).
  - intros [= <-]. cbn. rewrite !andb_false_r, andb_true_r.
    destruct (shutdown_cases s) as [-> | ->]; cbn; split; (done || lia).
  - unfold default_ctor.
    assert (first (ctor size NULL s).1 = false ∧
            atexit_calls (ctor size NULL s).1 =
              atexit_calls s + (if first s then 1 else 0)) as [Hf Ha].
    { unfold ctor. cbn. destruct (first s); split; (done || lia). }
    destruct (ctor size NULL s) as [s1 tmp]. cbn in *.
    destruct (dtor tmp s1) as [s2|] eqn:Hd; [|done]. cbn.
    intros [= <-]. cbn. apply dtor_first in Hd as [-> ->].
    rewrite Hf, Ha, !andb_true_r. by rewrite andb_false_r.
Qed.

Lemma run_first size ops st st' :
  run size ops st = Done st' →
  first (globals st') = first (globals st) && negb (existsb constructs ops) ∧
  atexit_calls (globals st') =
    atexit_calls (globals st) +
      (if first (globals st) && existsb constructs ops then 1 else 0).
Proof.
  revert st. induction ops as [|op ops IH]; intros st; cbn.
  - intros [= <-]. rewrite andb_true_r, andb_false_r. split; (done || lia).
  - destruct (exec size op st) as [st1|] eqn:He; [|done]. cbn.
    intros Hrun. apply exec_first in He as [Hf Ha].
    apply IH in Hrun as [-> ->]. rewrite Hf, Ha.
    destruct (first (globals st)), (constructs op), (existsb constructs ops);
      cbn; split; (done || lia).
Qed.

(** X6.  [shutdown] is registered with [atexit] exactly once, by the
    first construction: after any sequence of operations the number of
    [atexit] calls is [1] if a [Pointer] was constructed from a raw
    pointer or without arguments, and [0] otherwise, and [first] is
    [false] exactly in the former case. *)
Theorem atexit_called_once size ops st :
  run size ops start = Done st →
  atexit_calls (globals st) = (if existsb constructs ops then 1 else 0) ∧
  first (globals st) = negb (existsb constructs ops).
Proof.
  intros Hrun. apply run_first in Hrun as [-> ->]. by cbn.
Qed.

(** ** The records and deallocations of one instantiation *)

Section Uniform.

Variable size : Z.

#[local] Abbreviation ok := (record_of_instantiation size).

Lemma new_ok a : ok (PtrDetails.new a (to_unsigned size)).
Proof. unfold record_of_instantiation. cbn. split_and!; (done || lia). Qed.

Lemma upRefCount_ok d : ok d → ok (PtrDetails.upRefCount d).
Proof.
  intros (Ha & Hn & _). unfold record_of_instantiation. cbn.
  split_and!; try done; unfold to_unsigned; apply Z.mod_pos_bound; lia.
Qed.

Lemma downRefCount_ok d : ok d → ok (PtrDetails.downRefCount d).
Proof.
  intros (Ha & Hn & _). unfold record_of_instantiation. cbn.
  split_and!; try done; unfold to_unsigned; apply Z.mod_pos_bound; lia.
Qed.

Lemma alter_ok f p (l : list PtrDetails.t) :
  (∀ d, ok d → ok (f d)) → Forall ok l → Forall ok (alter f p l).
Proof. intros Hf Hl. apply Forall_alter; [done|]. intros x _. apply Hf. Qed.

Lemma release_ok d : ok d → dealloc_of_instantiation size (PtrDetails.release d).
Proof.
  intros (Ha & _). unfold dealloc_of_instantiation, PtrDetails.release.
  rewrite Ha. by case_bool_decide.
Qed.

Lemma collect_uniform s : uniform size s → uniform size (collect s).2.
Proof.
  intros [Hl Hf]. rewrite collect_unfold. split; cbn.
  - apply Forall_forall. intros d [_ Hd]%list_elem_of_filter.
    by eapply Forall_forall in Hl.
  - apply Forall_app. split; [done|]. apply Forall_fmap, Forall_forall.
    intros d [_ Hd]%list_elem_of_filter. apply release_ok.
    by eapply Forall_forall in Hl.
Qed.

Lemma ctor_uniform a s : uniform size s → uniform size (ctor size a s).1.
Proof.
  intros [Hl Hf]. split; [|done]. rewrite ctor_refContainer.
  destruct (record_of a (refContainer s)).
  - apply alter_ok; [apply upRefCount_ok | done].
  - apply Forall_app. split; [done|]. apply Forall_singleton, new_ok.
Qed.

Lemma copy_ctor_uniform ob s s' p :
  copy_ctor ob s = Done (s', p) → uniform size s → uniform size s'.
Proof.
  rewrite copy_ctor_unfold. destruct (record_of _ _); [|done].
  intros [= <- <-] [Hl Hf]. split; [|done]. cbn.
  apply alter_ok; [apply upRefCount_ok | done].
Qed.

Lemma dtor_uniform this s s' :
  dtor this s = Done s' → uniform size s → uniform size s'.
Proof.
  rewrite dtor_unfold. destruct (record_of _ _); [|done].
  intros [= <-] [Hl Hf]. apply collect_uniform. split; [|done]. cbn.
  apply alter_ok; [apply downRefCount_ok | done].
Qed.

Lemma assign_raw_uniform a this s :
  uniform size s → uniform size (assign_raw size a this s).1.1.
Proof.
  intros [Hl Hf]. split; [|done]. rewrite assign_raw_refContainer. cbv zeta.
  set (l1 := match record_of (addr this) (refContainer s) with
             | Some _ => _ | None => _ end).
  assert (Forall ok l1) as Hl1.
  { unfold l1. destruct (record_of _ _); [|done].
    apply alter_ok; [apply downRefCount_ok | done]. }
  destruct (record_of a l1).
  - apply alter_ok; [apply upRefCount_ok | done].
  - apply Forall_app. split; [done|]. apply Forall_singleton, new_ok.
Qed.

Lemma assign_ptr_uniform rv this s s' p :
  assign_ptr rv this s = Done (s', p) → uniform size s → uniform size s'.
Proof.
  rewrite assign_ptr_unfold. cbv zeta. case_decide; [by intros [= <- <-]|].
  destruct (record_of (addr this) (refContainer s)),
    (record_of (addr rv) (refContainer s)); try done.
  intros [= <- <-] [Hl Hf]. split; [|done]. cbn.
  apply alter_ok; [apply upRefCount_ok|].
  apply alter_ok; [apply downRefCount_ok | done].
Qed.

Lemma shutdown_uniform s : uniform size s → uniform size (shutdown s).
Proof.
  intros [Hl Hf]. destruct (shutdown_cases s) as [-> | ->]; [done|].
  split; cbn; [done|].
  apply Forall_app. split; [done|]. apply Forall_fmap, Forall_forall.
  intros d Hd. apply release_ok. by eapply Forall_forall in Hl.
Qed.

Lemma exec_uniform op st st' :
  exec size op st = Done st' →
  uniform size (globals st) → uniform size (globals st').
Proof.
  destruct st as [s objs]. unfold exec. cbn. destruct op; cbn.
  - pose proof (ctor_uniform a s) as Hc.
    destruct (ctor size a s). by intros [= <-].
  - destruct (object_at ob objs) as [o|]; [|done]. cbn.
    destruct (copy_ctor o s) as [[s' p]|] eqn:Hc; [|done]. cbn.
    intros [= <-]. cbn. by eapply copy_ctor_uniform.
  - destruct (object_at h objs) as [o|]; [|done]. cbn.
    destruct (dtor o s) as [s'|] eqn:Hd; [|done]. cbn.
    intros [= <-]. cbn. by eapply dtor_uniform.
  - destruct (object_at h objs) as [o|]; [|done]. cbn.
    pose proof (assign_raw_uniform a o s) as Hc.
    destruct (assign_raw size a o s) as [[s' p] r]. by intros [= <-].
  - destruct (object_at h objs) as [o|]; [|done]. cbn.
    destruct (object_at rv objs) as [r|]; [|done]. cbn.
    destruct (assign_ptr r o s) as [[s' p]|] eqn:Hc; [|done]. cbn.
    intros [= <-]. cbn. by eapply assign_ptr_uniform.
  - intros [= <-]. cbn. apply collect_uniform.
  - intros [= <-]. cbn. apply shutdown_uniform.
  - unfold default_ctor. pose proof (ctor_uniform NULL s) as Hc.
    destruct (ctor size NULL s) as [s1 tmp]. cbn in *.
    destruct (dtor tmp s1) as [s2|] eqn:Hd; [|done]. cbn.
    intros [= <-] Hu. cbn. eapply dtor_uniform; eauto.
Qed.

Lemma run_uniform ops st st' :
  run size ops st = Done st' →
  uniform size (globals st) → uniform size (globals st').
Proof.
  revert st. induction ops as [|op ops IH]; intros st; cbn.
  - by intros [= <-].
  - destruct (exec size op st) as [st1|] eqn:He; [|done]. cbn.
    intros Hrun Hu. apply (IH st1 Hrun). by eapply exec_uniform.
Qed.

End Uniform.

(** X7.  Within one instantiation [Pointer<T, size>] all records look
    alike: after any sequence of operations every record has [arraySize]
    equal to [size] converted to [unsigned], [isArray] set exactly when
    that value is positive, and a [refCount] in [0, 2^32); and every
    deallocation made so far used the one form this [isArray] selects,
    [delete[]] for all of them or [delete] for all of them. *)
Theorem one_deallocation_form size ops st :
  run size ops start = Done st →
  (∀ d, d ∈ refContainer (globals st) →
     PtrDetails.isArray d = bool_decide (0 < size mod 2 ^ 32)%Z ∧
     PtrDetails.arraySize d = (size mod 2 ^ 32)%Z ∧
     (0 ≤ PtrDetails.refCount d < 2 ^ 32)%Z) ∧
  (∀ e, e ∈ freed (globals st) →
     e = if bool_decide (0 < size mod 2 ^ 32)%Z
         then DeleteArray (dealloc_addr e) else Delete (dealloc_addr e)).
Proof.
  intros Hrun.
  destruct (run_uniform size ops start st Hrun) as [Hl Hf].
  { split; apply Forall_nil_2. }
  split.
  - intros d Hd. by eapply Forall_forall in Hl.
  - intros e He. by eapply Forall_forall in Hf.
Qed.

(** ** What is deallocated, and when *)

Lemma dealloc_addr_release d :
  dealloc_addr (PtrDetails.release d) = PtrDetails.memPtr d.
Proof. unfold PtrDetails.release. by destruct (PtrDetails.isArray d). Qed.

Lemma collect_freed s :
  distinct_addresses s →
  ∃ log, freed (collect s).2 = freed s ++ log ∧
         ∀ e, e ∈ log →
              count_of (dealloc_addr e) (refContainer (collect s).2) = 0%Z.
Proof.
  intros Hnd. rewrite collect_unfold. cbn. eexists. split; [done|].
  intros e (d & -> & Hd)%list_elem_of_fmap.
  apply list_elem_of_filter in Hd as [Hz Hd].
  rewrite dealloc_addr_release. unfold count_of.
  rewrite record_of_filter, (record_of_elem d) by done.
  by rewrite decide_False by tauto.
Qed.

Lemma dtor_freed this s s' :
  dtor this s = Done s' → distinct_addresses s →
  ∃ log, freed s' = freed s ++ log ∧
         ∀ e, e ∈ log → count_of (dealloc_addr e) (refContainer s') = 0%Z.
Proof.
  rewrite dtor_unfold. destruct (record_of _ _); [|done].
  intros [= <-] Hnd.
  apply (collect_freed
           (set_refContainer
              (alter PtrDetails.downRefCount
                 (findPtrInfo (addr this) (refContainer s)) (refContainer s)) s)).
  unfold distinct_addresses. cbn. by rewrite fmap_memPtr_alter.
Qed.

Lemma nothing_freed s s' :
  freed s' = freed s →
  ∃ log, freed s' = freed s ++ log ∧
         ∀ e, e ∈ log → count_of (dealloc_addr e) (refContainer s') = 0%Z.
Proof.
  intros ->. exists []. rewrite app_nil_r. split; [done|].
  intros e He. by apply elem_of_nil in He.
Qed.

Lemma exec_freed size op st st' :
  exec size op st = Done st' → distinct_addresses (globals st) →
  ∃ log, freed (globals st') = freed (globals st) ++ log ∧
         ∀ e, e ∈ log →
              count_of (dealloc_addr e) (refContainer (globals st')) = 0%Z.
Proof.
  destruct st as [s objs]. unfold exec. cbn. destruct op; cbn.
  - intros [= <-] _. by apply nothing_freed.
  - destruct (object_at ob objs) as [o|]; [|done]. cbn.
    rewrite copy_ctor_unfold. destruct (record_of _ _); [|done]. cbn.
    intros [= <-] _. by apply nothing_freed.
  - destruct (object_at h objs) as [o|]; [|done]. cbn.
    destruct (dtor o s) as [s'|] eqn:Hd; [|done]. cbn.
    intros [= <-]. cbn. by apply (dtor_freed o).
  - destruct (object_at h objs) as [o|]; [|done]. cbn.
    destruct (assign_raw_rest size a o s) as (Hf & _).
    destruct (assign_raw size a o s) as [[s' p] r]. cbn in *.
    intros [= <-] _. by apply nothing_freed.
  - destruct (object_at h objs) as [o|]; [|done]. cbn.
    destruct (object_at rv objs) as [r|]; [|done]. cbn.
    rewrite assign_ptr_unfold. cbv zeta.
    case_decide; [intros [= <-] _; by apply nothing_freed|].
    destruct (record_of (addr o) (refContainer s)),
      (record_of (addr r) (refContainer s)); try done.
    cbn. intros [= <-] _. by apply nothing_freed.
  - intros [= <-]. cbn. apply collect_freed.
  - intros [= <-] _. cbn. destruct (shutdown_cases s) as [-> | ->].
    + by apply nothing_freed.
    + cbn. eexists. split; [done|]. intros e _. done.
  - unfold default_ctor. pose proof (ctor_distinct size NULL s) as Hc.
    assert (freed (ctor size NULL s).1 = freed s) as Hf by done.
    destruct (ctor size NULL s) as [s1 tmp]. cbn in *.
    destruct (dtor tmp s1) as [s2|] eqn:Hd; [|done]. cbn.
    intros [= <-] Hnd. cbn. rewrite <- Hf. apply (dtor_freed tmp); auto.
Qed.

Lemma run_snoc size ops op st :
  run size (ops ++ [op]) st = run size ops st ≫= exec size op.
Proof.
  revert st. induction ops as [|o ops IH]; intros st; cbn.
  - by destruct (exec size op st).
  - destruct (exec size o st) as [st1|]; [|done]. cbn. apply IH.
Qed.

Lemma run_invariant size ops st :
  forallb counting ops = true →
  run size ops start = Done st →
  (Z.of_nat (length (objects st)) < 2 ^ 32)%Z →
  distinct_addresses (globals st) ∧ counts_match st.
Proof.
  intros Hops Hrun Hlen. apply (run_counts size ops start st); try done.
  apply NoDup_nil_2.
Qed.

(** X8.  Nothing that a live [Pointer] points at is deallocated.  Take
    a program whose operations are constructions from a raw pointer
    ([Pointer(T *t)]), copy constructions, destructions, the two
    assignments and calls of [collect] -- no [Pointer()] and no
    [shutdown()] -- and which creates fewer than [2^32] objects: every
    deallocation its last operation makes is of an address that no live
    object holds when the operation returns. *)
Theorem freed_addresses_have_no_holders size ops op st st' :
  forallb counting ops = true → counting op = true →
  run size ops start = Done st →
  exec size op st = Done st' →
  (Z.of_nat (length (objects st')) < 2 ^ 32)%Z →
  ∃ log, freed (globals st') = freed (globals st) ++ log ∧
         ∀ e, e ∈ log → holders (dealloc_addr e) (objects st') = 0.
Proof.
  intros Hops Hop Hrun Hex Hlen.
  pose proof (exec_length _ _ _ _ Hex) as Hmono.
  destruct (run_invariant size ops st Hops Hrun) as [Hnd Hcm]; [lia|].
  pose proof (exec_counts size op st st' Hop Hex Hnd Hcm Hlen) as Hcm'.
  destruct (exec_freed size op st st' Hex Hnd) as (log & Hlog & Hzero).
  exists log. split; [done|]. intros e He.
  specialize (Hzero e He). rewrite Hcm' in Hzero. lia.
Qed.

(** X9.  No live [Pointer] is left without a record.  After a program
    whose operations are constructions from a raw pointer
    ([Pointer(T *t)]), copy constructions, destructions, the two
    assignments and calls of [collect] -- no [Pointer()] and no
    [shutdown()] -- and which has created fewer than [2^32] objects, the
    address of every live object has a record, and its [refCount] is at
    least [1]. *)
Theorem live_objects_are_registered size ops st h p :
  forallb counting ops = true →
  run size ops start = Done st →
  (Z.of_nat (length (objects st)) < 2 ^ 32)%Z →
  objects st !! h = Some (Some p) →
  ∃ d, record_of (addr p) (refContainer (globals st)) = Some d ∧
       (1 ≤ PtrDetails.refCount d)%Z.
Proof.
  intros Hops Hrun Hlen Hp.
  destruct (run_invariant size ops st Hops Hrun Hlen) as [Hnd Hcm].
  pose proof (holders_live _ _ _ Hp) as Hlive.
  specialize (Hcm (addr p)). unfold count_of in Hcm.
  destruct (record_of (addr p) (refContainer (globals st))) as [d|]; [|lia].
  exists d. split; [done | lia].
Qed.

Lemma records_held_after_sweep size ops op st :
  forallb counting ops = true → sweeps op = true →
  run size (ops ++ [op]) start = Done st →
  (Z.of_nat (length (objects st)) < 2 ^ 32)%Z →
  ∀ d, d ∈ refContainer (globals st) →
       1 ≤ holders (PtrDetails.memPtr d) (objects st).
Proof.
  intros Hops Hop Hrun Hlen d Hd.
  assert (forallb counting (ops ++ [op]) = true) as Hall.
  { rewrite forallb_app, Hops. cbn. by destruct op. }
  destruct (run_invariant size _ st Hall Hrun Hlen) as [Hnd Hcm].
  assert (PtrDetails.refCount d ≠ 0%Z) as Hnz.
  { rewrite run_snoc in Hrun.
    destruct (run size ops start) as [[s objs]|]; [|done]. cbn in Hrun.
    destruct op; try done; unfold exec in Hrun; cbn in Hrun.
    - destruct (object_at h objs) as [o|]; [|done]. cbn in Hrun.
      destruct (dtor o s) as [s'|] eqn:Hdt; [|done]. cbn in Hrun.
      injection Hrun as <-. by eapply dtor_leaves_no_zero.
    - injection Hrun as <-. by eapply collect_leaves_no_zero. }
  specialize (Hcm (PtrDetails.memPtr d)). unfold count_of in Hcm.
  rewrite (record_of_elem d) in Hcm by done. lia.
Qed.

(** X10.  No garbage outlives a sweep.  Take a program whose
    operations are constructions from a raw pointer ([Pointer(T *t)]),
    copy constructions, destructions, the two assignments and calls of
    [collect] -- no [Pointer()] and no [shutdown()] -- and which creates
    fewer than [2^32] objects.  When its last operation is the
    destruction of a [Pointer] or a call of [collect], every record left
    in [refContainer] is held by at least one live object. *)
Theorem no_garbage_after_sweep size ops op st :
  forallb counting ops = true → sweeps op = true →
  run size (ops ++ [op]) start = Done st →
  (Z.of_nat (length (objects st)) < 2 ^ 32)%Z →
  ∀ d, d ∈ refContainer (globals st) →
       1 ≤ holders (PtrDetails.memPtr d) (objects st).
Proof.
  intros Hops Hop Hrun Hlen d Hd.
  assert (forallb counting (ops ++ [op]) = true) as Hall.
  { rewrite forallb_app, Hops. cbn. by destruct op. }
  destruct (run_invariant size _ st Hall Hrun Hlen) as [Hnd Hcm].
  assert (PtrDetails.refCount d ≠ 0%Z) as Hnz.
  { rewrite run_snoc in Hrun.
    destruct (run size ops start) as [[s objs]|]; [|done]. cbn in Hrun.
    destruct op; try done; unfold exec in Hrun; cbn in Hrun.
    - destruct (object_at h objs) as [o|]; [|done]. cbn in Hrun.
      destruct (dtor o s) as [s'|] eqn:Hdt; [|done]. cbn in Hrun.
      injection Hrun as <-. by eapply dtor_leaves_no_zero.
    - injection Hrun as <-. by eapply collect_leaves_no_zero. }
  specialize (Hcm (PtrDetails.memPtr d)). unfold count_of in Hcm.
  rewrite (record_of_elem d) in Hcm by done. lia.
Qed.

(** ** After [shutdown] *)

(** X11.  [shutdown] empties [refContainer] unless the number of
    records is a multiple of [2^32] other than [0] (then
    [refContainerSize()], an [int], is [0] and [shutdown] returns at
    once, changing nothing).  Once it has emptied the registry, whatever
    objects are still alive, destroying or copying any [Pointer]
    dereferences the end position (undefined behaviour), while a second
    [shutdown] and a [collect] do nothing and deallocate nothing. *)
Theorem after_shutdown this s :
  (refContainer s = [] ∨ refContainerSize s ≠ 0%Z →
     refContainer (shutdown s) = [] ∧
     dtor this (shutdown s) = Undefined ∧
     copy_ctor this (shutdown s) = Undefined ∧
     shutdown (shutdown s) = shutdown s ∧
     collect (shutdown s) = (false, shutdown s)) ∧
  (refContainerSize s = 0%Z → shutdown s = s).
Proof.
  split; [|apply shutdown_skips].
  intros Hok. rewrite (shutdown_skips (shutdown s)).
  - rewrite dtor_unfold, copy_ctor_unfold, collect_unfold, !shutdown_unfold by done.
    cbn. by rewrite ?app_nil_r.
  - apply refContainerSize_nil. by rewrite shutdown_unfold.
Qed.

(** ** Construction and copying *)

(** X12.  Constructing and copying never deallocate and never erase or
    reorder records: the addresses registered before are still
    registered, in the same order, followed by at most one new address,
    and the log of deallocations is unchanged. *)
Theorem construction_keeps_records size a ob s :
  (freed (ctor size a s).1 = freed s ∧
   ∃ new, PtrDetails.memPtr <$> refContainer (ctor size a s).1 =
            (PtrDetails.memPtr <$> refContainer s) ++ new ∧
          (new = [] ∨ new = [a])) ∧
  (∀ s' p, copy_ctor ob s = Done (s', p) →
     freed s' = freed s ∧
     PtrDetails.memPtr <$> refContainer s' = PtrDetails.memPtr <$> refContainer s ∧
     p = ob).
Proof.
  split.
  - split; [done|]. rewrite ctor_refContainer.
    destruct (record_of a (refContainer s)).
    + exists []. rewrite fmap_memPtr_alter, app_nil_r by done. auto.
    + exists [a]. unfold emplace_back. rewrite fmap_app. auto.
  - intros s' p. rewrite copy_ctor_unfold.
    destruct (record_of _ _); [|done]. intros [= <- <-]. cbn.
    by rewrite fmap_memPtr_alter.
Qed.

(** ** [operator==] on records *)

(** X13.  [operator==] on [PtrDetails] compares [memPtr] and [arraySize]
    only.  It is an equivalence; a record stays equal to itself when its
    count goes up or down, and a copy made by the copy constructor is
    equal to the original although its [refCount] is not copied.  In a
    list with one record per address, two records that compare equal are
    the same record. *)
Theorem eqb_identifies_records :
  (∀ d, PtrDetails.eqb d d = true) ∧
  (∀ d e, PtrDetails.eqb d e = PtrDetails.eqb e d) ∧
  (∀ d e f, PtrDetails.eqb d e = true → PtrDetails.eqb e f = true →
            PtrDetails.eqb d f = true) ∧
  (∀ d c, PtrDetails.eqb (PtrDetails.upRefCount d) d = true ∧
          PtrDetails.eqb (PtrDetails.downRefCount d) d = true ∧
          PtrDetails.eqb (PtrDetails.copy c d) d = true) ∧
  (∀ (l : list PtrDetails.t) d e,
     NoDup (PtrDetails.memPtr <$> l) → d ∈ l → e ∈ l →
     PtrDetails.eqb d e = true → d = e).
Proof.
  unfold PtrDetails.eqb. split_and!.
  - intros d. by rewrite !Z.eqb_refl.
  - intros d e.
    by rewrite (Z.eqb_sym (PtrDetails.memPtr d)), (Z.eqb_sym (PtrDetails.arraySize d)).
  - intros d e f [H1 H2]%andb_prop [H3 H4]%andb_prop.
    apply Z.eqb_eq in H1, H2, H3, H4. rewrite H1, H2, H3, H4.
    by rewrite !Z.eqb_refl.
  - intros d c. cbn. by rewrite !Z.eqb_refl.
  - intros l d e Hnd Hd He [H1 _]%andb_prop. apply Z.eqb_eq in H1.
    pose proof (record_of_elem d l Hnd Hd) as Hrd.
    pose proof (record_of_elem e l Hnd He) as Hre.
    rewrite H1 in Hrd. congruence.
Qed.

(** ** [begin] and [end] *)

(** X14.  For a [Pointer] made by the constructor, [begin()] and [end()]
    are built over the same bounds [addr, addr + n * sizeof(T))], with
    [n] the array length [size] of the instantiation when it is positive
    and [1] otherwise; [begin()] stands at the lower bound and [end()]
    at the upper one. *)
Theorem begin_end_bounds {Iter : Type} (new_Iter : Z → Z → Z → Iter)
    (sizeof_T size a : Z) (s : statics) :
  (- 2 ^ 31 ≤ size < 2 ^ 31)%Z →
  let this := (ctor size a s).2 in
  let n := (if bool_decide (0 < size)%Z then size else 1)%Z in
  begin Iter new_Iter sizeof_T this = new_Iter a a (a + n * sizeof_T)%Z ∧
  end_ Iter new_Iter sizeof_T this =
    new_Iter (a + n * sizeof_T)%Z a (a + n * sizeof_T)%Z.
Proof.
  intros Hsize this n. unfold begin, end_, this, n.
  change (ctor size a s).2 with (fields_of size a). cbn.
  case_bool_decide as Hpos; [|done].
  assert (to_int (to_unsigned size) = size) as ->; [|done].
  unfold to_int, to_unsigned.
  rewrite (Z.mod_small size) by lia. rewrite Z.mod_small by lia. lia.
Qed.

(** ** Objects and their records *)

Lemma exec_objects size op st st' :
  counting op = true →
  exec size op st = Done st' →
  Forall (object_of_instantiation size) (objects st) →
  Forall (object_of_instantiation size) (objects st').
Proof.
  destruct st as [s objs]. unfold exec. cbn. intros Hop Hex Hall.
  assert (∀ h p, object_at h objs = Done p →
                 object_of_instantiation size (Some p)) as Hat.
  { intros h p Hp%object_at_Done. by eapply Forall_lookup_1 in Hall. }
  destruct op; try done; cbn in Hex.
  - assert ((ctor size a s).2 = fields_of size a) as Hp by done.
    destruct (ctor size a s) as [s' p]. cbn in Hp. subst p.
    injection Hex as <-. cbn. apply Forall_app. split; [done|].
    by apply Forall_singleton.
  - destruct (object_at ob objs) as [o|] eqn:Ho; [|done]. cbn in Hex.
    rewrite copy_ctor_unfold in Hex. destruct (record_of _ _); [|done].
    injection Hex as <-. cbn. apply Forall_app. split; [done|].
    apply Forall_singleton. by eapply Hat.
  - destruct (object_at h objs) as [o|]; [|done]. cbn in Hex.
    destruct (dtor o s) as [s'|]; [|done]. injection Hex as <-. cbn.
    by apply Forall_insert.
  - destruct (object_at h objs) as [o|]; [|done]. cbn in Hex.
    destruct (assign_raw_rest size a o s) as (_ & _ & _ & Hp & _).
    destruct (assign_raw size a o s) as [[s' p] r]. cbn in Hp. subst p.
    injection Hex as <-. cbn. by apply Forall_insert.
  - destruct (object_at h objs) as [o|] eqn:Ho; [|done]. cbn in Hex.
    destruct (object_at rv objs) as [r|] eqn:Hr; [|done]. cbn in Hex.
    rewrite assign_ptr_unfold in Hex. cbv zeta in Hex.
    case_decide.
    + injection Hex as <-. cbn. apply Forall_insert; [done|]. by eapply Hat.
    + destruct (record_of (addr o) (refContainer s)),
        (record_of (addr r) (refContainer s)); try done.
      injection Hex as <-. cbn. apply Forall_insert; [done|]. by eapply Hat.
  - by injection Hex as <-.
Qed.

Lemma run_objects size ops st st' :
  forallb counting ops = true →
  run size ops st = Done st' →
  Forall (object_of_instantiation size) (objects st) →
  Forall (object_of_instantiation size) (objects st').
Proof.
  revert st. induction ops as [|op ops IH]; intros st; cbn.
  - by intros _ [= <-].
  - intros [Hop Hops]%andb_prop.
    destruct (exec size op st) as [st1|] eqn:He; [|done]. cbn.
    intros Hrun Hall. apply (IH st1 Hops Hrun). by eapply exec_objects.
Qed.

(** X15.  A [Pointer] describes its allocation as its record does,
    unless the array length of the instantiation is negative.  Take a
    program whose operations are constructions from a raw pointer
    ([Pointer(T *t)]), copy constructions, destructions, the two
    assignments and calls of [collect] -- no [Pointer()] and no
    [shutdown()] -- which has created fewer than [2^32] objects, with
    [size] in the range of [int].  The record of a live object's address
    has the object's [isArray] and [arraySize] when [size] is not
    negative; when [size] is negative the object says it is not an array
    while its record, built from [size] converted to [unsigned], says it
    is one (and [collect] will use [delete[]] on it). *)
Theorem objects_mirror_records size ops st h p :
  forallb counting ops = true →
  run size ops start = Done st →
  (Z.of_nat (length (objects st)) < 2 ^ 32)%Z →
  (- 2 ^ 31 ≤ size < 2 ^ 31)%Z →
  objects st !! h = Some (Some p) →
  ∃ d, record_of (addr p) (refContainer (globals st)) = Some d ∧
       ((0 ≤ size)%Z →
          isArray p = PtrDetails.isArray d ∧
          arraySize p = PtrDetails.arraySize d) ∧
       ((size < 0)%Z →
          isArray p = false ∧ PtrDetails.isArray d = true).
Proof.
  intros Hops Hrun Hlen Hsize Hp.
  destruct (run_invariant size ops st Hops Hrun Hlen) as [Hnd Hcm].
  pose proof (holders_live _ _ _ Hp) as Hlive.
  specialize (Hcm (addr p)). unfold count_of in Hcm.
  destruct (record_of (addr p) (refContainer (globals st))) as [d|] eqn:Hd; [|lia].
  exists d. split; [done|].
  destruct (run_uniform size ops start st Hrun) as [Hl _].
  { split; apply Forall_nil_2. }
  apply record_of_Some in Hd as [_ Hin].
  eapply Forall_forall in Hl as (Hda & Hdn & _); [|exact Hin].
  pose proof (run_objects size ops start st Hops Hrun (Forall_nil_2 _)) as Hobj.
  eapply Forall_lookup_1 in Hobj; [|exact Hp]. destruct Hobj as [Hpa Hpn].
  rewrite Hda, Hdn, Hpa, Hpn. unfold to_unsigned. split.
  - intros Hpos. rewrite Z.mod_small by lia. done.
  - intros Hneg. rewrite bool_decide_eq_false_2 by lia.
    rewrite bool_decide_eq_true_2; [done|].
    pose proof (Z.mod_pos_bound size (2 ^ 32)) as Hb.
    assert (size mod 2 ^ 32 ≠ 0)%Z; [|lia].
    intros H0. apply Z.mod_divide in H0 as [k Hk]; lia.
Qed.

(** ** The size of the registry *)

Lemma sum_holders_nil (A : list Z) :
  sum_list_with (λ a, holders a []) A = 0.
Proof. induction A as [|a A IH]; [done | exact IH]. Qed.

Lemma sum_holds_le o (A : list Z) :
  NoDup A →
  sum_list_with (λ a, if holds a o then 1 else 0) A ≤
    match o with Some _ => 1 | None => 0 end.
Proof.
  destruct o as [p|]; cbn.
  - induction A as [|a A IH]; intros Hnd; cbn; [lia|].
    apply NoDup_cons in Hnd as [Ha Hnd]. specialize (IH Hnd).
    case_bool_decide as Hpa; [|lia]. subst a.
    assert (sum_list_with (λ a, if bool_decide (addr p = a) then 1 else 0) A = 0)
      as ->; [|lia].
    clear IH Hnd. induction A as [|b A IH]; cbn; [done|].
    apply not_elem_of_cons in Ha as [Hb Ha].
    rewrite bool_decide_eq_false_2 by done. by apply IH.
  - intros _. induction A as [|a A IH]; [cbn; lia | exact IH].
Qed.

Lemma sum_holders_le (A : list Z) (objs : list (option Pointer.t)) :
  NoDup A →
  sum_list_with (λ a, holders a objs) A ≤ length (filter is_Some objs).
Proof.
  intros Hnd. induction objs as [|o objs IH].
  - by rewrite sum_holders_nil.
  - assert (sum_list_with (λ a, holders a (o :: objs)) A =
              sum_list_with (λ a, if holds a o then 1 else 0) A +
              sum_list_with (λ a, holders a objs) A) as ->.
    { clear. induction A as [|a A IHA]; cbn; [done|]. cbn in IHA. lia. }
    pose proof (sum_holds_le o A Hnd).
    destruct o as [p|].
    + rewrite filter_cons_True by by eexists. cbn in *. lia.
    + rewrite filter_cons_False by (by intros [? ?]). cbn in *. lia.
Qed.

Lemma length_le_sum (f : Z → nat) (A : list Z) :
  (∀ a, a ∈ A → 1 ≤ f a) → length A ≤ sum_list_with f A.
Proof.
  induction A as [|a A IH]; intros Hf; cbn; [lia|].
  pose proof (Hf a (list_elem_of_here _ _)).
  assert (length A ≤ sum_list_with f A); [|lia].
  apply IH. intros b Hb. apply Hf. by apply list_elem_of_further.
Qed.

(** X16.  After a sweep the registry is no larger than the set of live
    objects.  Take a program whose operations are constructions from a
    raw pointer ([Pointer(T *t)]), copy constructions, destructions, the
    two assignments and calls of [collect] -- no [Pointer()] and no
    [shutdown()] -- and which creates fewer than [2^31] objects.  When
    its last operation is a destruction or a call of [collect],
    [refContainerSize()] is at least [0] and at most the number of live
    [Pointer] objects. *)
Theorem refContainerSize_after_sweep size ops op st :
  forallb counting ops = true → sweeps op = true →
  run size (ops ++ [op]) start = Done st →
  (Z.of_nat (length (objects st)) < 2 ^ 31)%Z →
  (0 ≤ refContainerSize (globals st) ≤
     Z.of_nat (length (filter is_Some (objects st))))%Z.
Proof.
  intros Hops Hop Hrun Hlen.
  assert (forallb counting (ops ++ [op]) = true) as Hall.
  { rewrite forallb_app, Hops. cbn. by destruct op. }
  destruct (run_invariant size _ st Hall Hrun) as [Hnd _]; [lia|].
  pose proof (records_held_after_sweep size ops op st Hops Hop Hrun) as Hheld.
  pose proof (sum_holders_le _ (objects st) Hnd) as Hsum.
  pose proof (length_le_sum (λ a, holders a (objects st))
                (PtrDetails.memPtr <$> refContainer (globals st))) as Hlen'.
  rewrite length_fmap in Hlen'.
  pose proof (length_filter is_Some (objects st)) as Hfl.
  assert (length (refContainer (globals st)) ≤ length (filter is_Some (objects st)))
    as Hle.
  { etrans; [apply Hlen'|exact Hsum].
    intros a (d & -> & Hd)%list_elem_of_fmap. apply Hheld; [lia | done]. }
  unfold refContainerSize, to_int. rewrite Z.mod_small by lia. lia.
Qed.

(** ** Operations on live objects *)

(** X17.  No operation on live objects has undefined behaviour, as
    long as no object was made by [Pointer()] and [shutdown()] was not
    called.  After a program whose operations are constructions from a
    raw pointer ([Pointer(T *t)]), copy constructions, destructions, the
    two assignments and calls of [collect], and which has created fewer
    than [2^32] objects, any further operation whose operands are live
    objects completes: the positions it dereferences are never the end
    position. *)
Theorem operations_on_live_objects_complete size ops st op :
  forallb counting ops = true →
  run size ops start = Done st →
  (Z.of_nat (length (objects st)) < 2 ^ 32)%Z →
  in_scope op (objects st) →
  ∃ st', exec size op st = Done st'.
Proof.
  intros Hops Hrun Hlen Hsc.
  destruct (run_invariant size ops st Hops Hrun Hlen) as [_ Hcm].
  by apply exec_defined.
Qed.

(** ** Counts are [unsigned] *)

(** X18.  The count of an address is the number of objects constructed
    over it modulo [2^32]: after [n + 1] constructions over one address
    there is one record, [n + 1] live objects hold the address, and the
    record's [refCount] is [(n + 1) mod 2^32]. *)
Theorem refCount_counts_modulo size a n :
  run size (replicate (S n) (Construct a)) start =
    Done (mkProgram
            {| refContainer :=
                 [PtrDetails.mk (Z.of_nat (S n) mod 2 ^ 32) a
                    (bool_decide (0 < size mod 2 ^ 32)%Z) (size mod 2 ^ 32)];
               first := false; atexit_calls := 1; freed := [] |}
            (replicate (S n) (Some (fields_of size a)))) ∧
  holders a (replicate (S n) (Some (fields_of size a))) = S n.
Proof.
  split.
  - cbn [replicate run].
    assert (exec size (Construct a) start =
            Done (mkProgram
                    {| refContainer := [PtrDetails.new a (to_unsigned size)];
                       first := false; atexit_calls := 1; freed := [] |}
                    [Some (fields_of size a)])) as -> by done.
    cbn [mbind outcome_bind]. unfold PtrDetails.new.
    rewrite run_constructs_wrap by lia. cbn [app].
    unfold to_unsigned.
    by replace (1 + Z.of_nat n)%Z with (Z.of_nat (S n)) by lia.
  - generalize (S n). intros m. induction m as [|m IH]; [done|].
    cbn [replicate holders holds addr fields_of].
    rewrite bool_decide_eq_true_2 by done. by rewrite IH.
Qed.

(** ** Instances of the further properties *)

Lemma collect_twice_witness :
  (collect initial).1 = false ∧ (collect initial).2 = initial.
Proof.
  split; [reflexivity|].
  apply (proj2 (collect_twice initial)). reflexivity.
Defined.

Lemma construct_then_destroy_witness :
  record_of 100 (refContainer initial) = None ∧
  ∃ s2, dtor (ctor 0 100 initial).2 (ctor 0 100 initial).1 = Done s2 ∧
        refContainer s2 = refContainer (collect initial).2 ∧
        freed s2 = freed (collect initial).2 ++ [Delete 100].
Proof.
  split; [reflexivity|].
  apply (proj1 (construct_then_destroy 0 100 initial)). reflexivity.
Defined.

Lemma copy_then_destroy_witness :
  ∃ s1, copy_ctor (Pointer.mk 100 false 0) (ctor 0 100 initial).1 =
          Done (s1, Pointer.mk 100 false 0) ∧
        dtor (Pointer.mk 100 false 0) s1 = Done (collect (ctor 0 100 initial).1).2.
Proof.
  apply (copy_then_destroy (Pointer.mk 100 false 0) (ctor 0 100 initial).1
           (PtrDetails.mk 1 100 false 0)); [reflexivity | cbn; lia].
Defined.

Lemma assign_own_address_witness :
  assign_raw 0 100 (Pointer.mk 100 false 0) (ctor 0 100 initial).1 =
    ((ctor 0 100 initial).1, Pointer.mk 100 false 0, 100%Z).
Proof.
  apply (assign_own_address 0 (Pointer.mk 100 false 0) (ctor 0 100 initial).1
           (PtrDetails.mk 1 100 false 0)); [reflexivity | cbn; lia].
Defined.

Lemma atexit_called_once_witness :
  atexit_calls
    {| refContainer := [PtrDetails.mk 1 100 true 5]; first := false;
       atexit_calls := 1; freed := [] |} = 1 ∧
  first
    {| refContainer := [PtrDetails.mk 1 100 true 5]; first := false;
       atexit_calls := 1; freed := [] |} = false.
Proof.
  apply (atexit_called_once 5 [Construct 100; CopyConstruct 0; Destroy 1]
           (mkProgram
              {| refContainer := [PtrDetails.mk 1 100 true 5]; first := false;
                 atexit_calls := 1; freed := [] |}
              [Some (Pointer.mk 100 true 5); None])).
  reflexivity.
Defined.

Lemma one_deallocation_form_witness :
  DeleteArray 100 =
    if bool_decide (0 < 5 mod 2 ^ 32)%Z
    then DeleteArray (dealloc_addr (DeleteArray 100))
    else Delete (dealloc_addr (DeleteArray 100)).
Proof.
  apply (proj2 (one_deallocation_form 5
                  [Construct 100; CopyConstruct 0; Destroy 1; Destroy 0]
                  (mkProgram
                     {| refContainer := []; first := false;
                        atexit_calls := 1; freed := [DeleteArray 100] |}
                     [None; None])
                  eq_refl)).
  apply list_elem_of_here.
Defined.

Lemma freed_addresses_have_no_holders_witness :
  ∃ log, [DeleteArray 100] = [] ++ log ∧
         ∀ e, e ∈ log → holders (dealloc_addr e) [None; None] = 0.
Proof.
  apply (freed_addresses_have_no_holders 5
           [Construct 100; CopyConstruct 0; Destroy 1] (Destroy 0)
           (mkProgram
              {| refContainer := [PtrDetails.mk 1 100 true 5]; first := false;
                 atexit_calls := 1; freed := [] |}
              [Some (Pointer.mk 100 true 5); None])
           (mkProgram
              {| refContainer := []; first := false;
                 atexit_calls := 1; freed := [DeleteArray 100] |}
              [None; None]));
    reflexivity.
Defined.

Lemma live_objects_are_registered_witness :
  ∃ d, record_of 100 [PtrDetails.mk 1 100 true 5] = Some d ∧
       (1 ≤ PtrDetails.refCount d)%Z.
Proof.
  apply (live_objects_are_registered 5
           [Construct 100; CopyConstruct 0; Destroy 1]
           (mkProgram
              {| refContainer := [PtrDetails.mk 1 100 true 5]; first := false;
                 atexit_calls := 1; freed := [] |}
              [Some (Pointer.mk 100 true 5); None])
           0 (Pointer.mk 100 true 5));
    reflexivity.
Defined.

Lemma no_garbage_after_sweep_witness :
  1 ≤ holders 100 [Some (Pointer.mk 100 true 5); None].
Proof.
  apply (no_garbage_after_sweep 5 [Construct 100; CopyConstruct 0] (Destroy 1)
           (mkProgram
              {| refContainer := [PtrDetails.mk 1 100 true 5]; first := false;
                 atexit_calls := 1; freed := [] |}
              [Some (Pointer.mk 100 true 5); None])
           eq_refl eq_refl eq_refl eq_refl (PtrDetails.mk 1 100 true 5)).
  apply list_elem_of_here.
Defined.

Lemma after_shutdown_witness :
  refContainerSize (ctor 0 100 initial).1 = 1%Z ∧
  dtor (Pointer.mk 100 false 0) (shutdown (ctor 0 100 initial).1) = Undefined.
Proof.
  split; [reflexivity|].
  apply (proj1 (after_shutdown (Pointer.mk 100 false 0) (ctor 0 100 initial).1)).
  right. vm_compute. discriminate.
Defined.

Lemma construction_keeps_records_witness :
  freed (ctor 0 200 (ctor 0 100 initial).1).1 = [] ∧
  PtrDetails.memPtr <$> refContainer (ctor 0 200 (ctor 0 100 initial).1).1 = [100%Z; 200%Z] ∧
  Pointer.mk 100 false 0 = Pointer.mk 100 false 0.
Proof.
  apply (proj2 (construction_keeps_records 0 0 (Pointer.mk 100 false 0)
                  (ctor 0 200 (ctor 0 100 initial).1).1)
           (set_refContainer
              [PtrDetails.mk 2 100 false 0; PtrDetails.mk 1 200 false 0]
              (ctor 0 200 (ctor 0 100 initial).1).1)
           (Pointer.mk 100 false 0)).
  reflexivity.
Defined.

Lemma eqb_identifies_records_witness :
  PtrDetails.mk 1 100 false 0 = PtrDetails.mk 1 100 false 0.
Proof.
  destruct eqb_identifies_records as (_ & _ & _ & _ & Hsame).
  apply (Hsame [PtrDetails.mk 1 100 false 0]).
  - apply NoDup_singleton.
  - apply list_elem_of_here.
  - apply list_elem_of_here.
  - reflexivity.
Defined.

Lemma begin_end_bounds_witness :
  begin (Z * Z * Z) (λ p lo hi, (p, lo, hi)) 4 (ctor 5 100 initial).2 =
    (100, 100, 120)%Z ∧
  end_ (Z * Z * Z) (λ p lo hi, (p, lo, hi)) 4 (ctor 5 100 initial).2 =
    (120, 100, 120)%Z.
Proof.
  apply (begin_end_bounds (λ p lo hi, (p, lo, hi)) 4 5 100 initial). lia.
Defined.

Lemma objects_mirror_records_witness :
  ∃ d, record_of 100 [PtrDetails.mk 1 100 true 5] = Some d ∧
       ((0 ≤ 5)%Z →
          true = PtrDetails.isArray d ∧ 5%Z = PtrDetails.arraySize d) ∧
       ((5 < 0)%Z → true = false ∧ PtrDetails.isArray d = true).
Proof.
  apply (objects_mirror_records 5
           [Construct 100; CopyConstruct 0; Destroy 1]
           (mkProgram
              {| refContainer := [PtrDetails.mk 1 100 true 5]; first := false;
                 atexit_calls := 1; freed := [] |}
              [Some (Pointer.mk 100 true 5); None])
           0 (Pointer.mk 100 true 5));
    try reflexivity. lia.
Defined.

Lemma refContainerSize_after_sweep_witness :
  (0 ≤ refContainerSize
         {| refContainer := [PtrDetails.mk 1 100 true 5]; first := false;
            atexit_calls := 1; freed := [] |} ≤
     Z.of_nat (length (filter is_Some [Some (Pointer.mk 100 true 5); None])))%Z.
Proof.
  apply (refContainerSize_after_sweep 5 [Construct 100; CopyConstruct 0] (Destroy 1)
           (mkProgram
              {| refContainer := [PtrDetails.mk 1 100 true 5]; first := false;
                 atexit_calls := 1; freed := [] |}
              [Some (Pointer.mk 100 true 5); None]));
    reflexivity.
Defined.

Lemma operations_on_live_objects_complete_witness :
  ∃ st', exec 5 (Destroy 0)
           (mkProgram
              {| refContainer := [PtrDetails.mk 1 100 true 5]; first := false;
                 atexit_calls := 1; freed := [] |}
              [Some (Pointer.mk 100 true 5); None]) = Done st'.
Proof.
  apply (operations_on_live_objects_complete 5
           [Construct 100; CopyConstruct 0; Destroy 1]);
    [reflexivity | reflexivity | reflexivity |].
  exists (Pointer.mk 100 true 5). reflexivity.
Defined.
